(** * firds-data-download: the extraction-and-transform pipeline

    A shallow embedding of [src/Utils.py] and [src/main.py].

    - Python [str] values are [string]s; a character is a code point below 256.
    - Python [dict]s are [gmap]s; the insertion-ordered configuration table
      [TARGET_ELEMENTS] of the absent [Constants.py] is a list of pairs.
    - Exceptions are values of [Exn]; a computation that may raise returns a
      [Result]; the functions that talk to the network, the clock, the log or
      the object store run in the monad [M] over an explicit [World].
    - The XML parser, the answers of the network, of the object store and of
      the construction of its client are parameters of the program. *)

From Stdlib Require Import ZArith Ascii String List Lia Permutation.
From stdpp Require Import base option list gmap strings.

Local Open Scope string_scope.
Local Open Scope list_scope.

(** ** Exceptions and results *)

Inductive Exn : Type :=
  | RequestException        (* requests.exceptions.RequestException *)
  | BadZipFile              (* zipfile.BadZipFile *)
  | Exception_              (* a plain [Exception(...)] *)
  | ParseError              (* xml.etree.ElementTree.ParseError *)
  | AttributeError          (* [None.text], [None.group] *)
  | KeyError
  | TypeError
  | ValueError
  | UnicodeDecodeError
  | UnboundLocalError
  | SystemExit.             (* raised by [sys.exit]; not an [Exception] *)

#[global] Instance Exn_eq_dec : EqDecision Exn.
Proof. solve_decision. Defined.

(** [except Exception] catches every exception of the model but [SystemExit]. *)
Definition is_Exception (e : Exn) : bool :=
  match e with SystemExit => false | _ => true end.

Inductive Result (A : Type) : Type :=
  | Ok (a : A)
  | Raise (e : Exn).
Arguments Ok {A} a.
Arguments Raise {A} e.

#[global] Instance Result_ret : MRet Result := fun A a => Ok a.
#[global] Instance Result_bind : MBind Result := fun A B f r =>
  match r with Ok a => f a | Raise e => Raise e end.
#[global] Instance Result_fmap : FMap Result := fun A B f r =>
  match r with Ok a => Ok (f a) | Raise e => Raise e end.

Definition is_Ok {A} (r : Result A) : Prop := exists a, r = Ok a.
Definition is_Raise {A} (r : Result A) : Prop := exists e, r = Raise e.

(** [or_raise o e]: the value of [o], or the exception [e]. *)
Definition or_raise {A} (o : option A) (e : Exn) : Result A :=
  match o with Some a => Ok a | None => Raise e end.

(** ** Strings *)

Definition LF : ascii := "010"%char.
Definition CR : ascii := "013"%char.
Definition DQUOTE : ascii := "034"%char.

(** [removeprefix p s]: [s] without its prefix [p], when it starts with [p]. *)
Fixpoint removeprefix (p s : string) : option string :=
  match p, s with
  | EmptyString, _ => Some s
  | String a p', String b s' => if Ascii.eqb a b then removeprefix p' s' else None
  | String _ _, EmptyString => None
  end.

(** Truth value of a [str]: the empty string is false. *)
Definition str_truthy (s : string) : bool :=
  match s with EmptyString => false | _ => true end.

(** ** [re]: the two patterns of [Utils.py]

    Both patterns are matched the way a backtracking matcher does it: a lazy
    [.*?] first tries to stop, then takes one more character; [.] is every
    character but the line feed. *)
Module re.

(** [.*?\.zip] at the start of [s]. *)
Fixpoint lazy_then_dot_zip (s : string) : bool :=
  if String.prefix ".zip" s then true
  else match s with
       | EmptyString => false
       | String c s' => if Ascii.eqb c LF then false else lazy_then_dot_zip s'
       end.

(** [(.*?)_.*?\.zip] at the start of [s]: the text of group 1. *)
Fixpoint group1_then_rest (s : string) : option string :=
  match s with
  | EmptyString => None
  | String c s' =>
      if Ascii.eqb c "_" && lazy_then_dot_zip s' then Some EmptyString
      else if Ascii.eqb c LF then None
      else String c <$> group1_then_rest s'
  end.

(** [re.match(r"DLTINS_(.*?)_.*?\.zip", s)]: [None] when there is no match,
    else the match object, of which only group 1 is kept. *)
Definition match_file_date (s : string) : option string :=
  removeprefix "DLTINS_" s ≫= group1_then_rest.

(** [<FinInstrm>.*?</FinInstrm>] at the start of [s]: the matched text. *)
Fixpoint lazy_then_close (s : string) : option string :=
  if String.prefix "</FinInstrm>" s then Some "</FinInstrm>"
  else match s with
       | EmptyString => None
       | String c s' =>
           if Ascii.eqb c LF then None else String c <$> lazy_then_close s'
       end.

Definition match_record (s : string) : option string :=
  removeprefix "<FinInstrm>" s ≫= fun s' =>
  (fun m => "<FinInstrm>" +:+ m) <$> lazy_then_close s'.

(** The scan of [re.findall]: [skip] characters are still covered by the
    last match; a new match is tried at every other position, and the scan
    resumes after it. *)
Fixpoint findall_scan (skip : nat) (s : string) : list string :=
  match s with
  | EmptyString => []
  | String _ s' =>
      match skip with
      | S k => findall_scan k s'
      | O => match match_record s with
             | Some m => m :: findall_scan (String.length m - 1) s'
             | None => findall_scan 0 s'
             end
      end
  end.

(** [re.findall(r"<FinInstrm>.*?</FinInstrm>", xml)] *)
Definition findall_records (xml : string) : list string := findall_scan 0 xml.

End re.

(** ** [int] on a [str] *)

(** The characters that [int] drops around a number: tab to carriage
    return, the space, next line and the no-break space. The separators 28
    to 31, which [str.strip] drops, are not among them. *)
Definition is_space (c : ascii) : bool :=
  let n := nat_of_ascii c in
  ((9 <=? n)%nat && (n <=? 13)%nat) || (n =? 32)%nat
  || (n =? 133)%nat || (n =? 160)%nat.

Definition digit_value (c : ascii) : option Z :=
  let n := nat_of_ascii c in
  if (48 <=? n)%nat && (n <=? 57)%nat then Some (Z.of_nat (n - 48)) else None.

Fixpoint lstrip (s : string) : string :=
  match s with
  | String c s' => if is_space c then lstrip s' else s
  | EmptyString => EmptyString
  end.

Fixpoint rstrip (s : string) : string :=
  match s with
  | EmptyString => EmptyString
  | String c s' =>
      match rstrip s' with
      | EmptyString => if is_space c then EmptyString else String c EmptyString
      | r => String c r
      end
  end.

(** Decimal digits, single underscores allowed between two digits. *)
Fixpoint int_digits (acc : Z) (after_digit : bool) (s : string) : option Z :=
  match s with
  | EmptyString => if after_digit then Some acc else None
  | String c s' =>
      match digit_value c with
      | Some d => int_digits (10 * acc + d) true s'
      | None => if Ascii.eqb c "_" && after_digit
                then int_digits acc false s' else None
      end
  end.

(** [int(s)]: [None] stands for [ValueError]. White space around the number
    is dropped, a sign may come first; the bound that recent interpreters put
    on the number of digits is left out. *)
Definition py_int (s : string) : option Z :=
  match rstrip (lstrip s) with
  | String "+" s' => int_digits 0 false s'
  | String "-" s' => Z.opp <$> int_digits 0 false s'
  | s' => int_digits 0 false s'
  end.

(** ** [xml.etree.ElementTree] *)
Module ElementTree.

(** An element: its tag, its attributes, the text before its first child
    ([None] when there is none) and its children in document order. The
    program never reads [tail], which is left out. *)
#[warnings="-register-all"] Inductive Element : Type :=
  | Elem (tag : string) (attrib : gmap string string)
         (text : option string) (children : list Element).

Definition tag (e : Element) : string :=
  match e with Elem t _ _ _ => t end.
Definition attrib (e : Element) : gmap string string :=
  match e with Elem _ a _ _ => a end.
Definition text (e : Element) : option string :=
  match e with Elem _ _ x _ => x end.
Definition children (e : Element) : list Element :=
  match e with Elem _ _ _ c => c end.

(** [e.iter()]: the element, then its descendants, in document order. *)
Fixpoint iter (e : Element) : list Element :=
  match e with
  | Elem _ _ _ cs => e :: List.flat_map iter cs
  end.

(** The steps of an ElementPath expression without predicates:
    [.], [tag], [*], [//tag] and [//*]. *)
Inductive Step : Type :=
  | Self
  | Child (t : string)
  | Star
  | Descendant (t : option string).

(** A compiled path; [".//doc"] is [[Self; Descendant (Some "doc")]]. *)
Definition Path : Type := list Step.

Definition has_tag (t : string) (e : Element) : bool := String.eqb (tag e) t.

Definition select (st : Step) (result : list Element) : list Element :=
  match st with
  | Self => result
  | Child t => List.flat_map (fun e => List.filter (has_tag t) (children e)) result
  | Star => List.flat_map children result
  | Descendant None => List.flat_map (fun e => List.tl (iter e)) result
  | Descendant (Some t) =>
      List.flat_map (fun e => List.filter (has_tag t) (List.tl (iter e))) result
  end.

(** [e.iterfind(path)] *)
Definition iterfind (path : Path) (e : Element) : list Element :=
  List.fold_left (fun result st => select st result) path [e].

(** [e.findall(path)] *)
Definition findall (path : Path) (e : Element) : list Element := iterfind path e.

(** [e.find(path)]: the first match, or [None]. *)
Definition find (path : Path) (e : Element) : option Element :=
  List.hd_error (iterfind path e).

End ElementTree.
Export ElementTree(Element, Elem).

(** *** A reference parser

    [XML.fromstring] reads the fragment of XML made of start tags with
    attributes, end tags, empty-element tags, processing instructions and
    text: no entity references, comments, CDATA sections or [>] inside an
    attribute value. The pipeline takes the parser as a parameter; this one
    is used to run it on concrete documents. *)
Module XML.
Import ElementTree.

Inductive RawToken : Type :=
  | RawText (s : string)
  | RawTag (s : string).

(** Splits the document at [<] and [>]. The result is the chunk that is
    being read and the tokens after it. *)
Fixpoint lex (in_tag : bool) (s : string) : option (string * list RawToken) :=
  match s with
  | EmptyString => if in_tag then None else Some (EmptyString, [])
  | String c s' =>
      if in_tag then
        if Ascii.eqb c ">" then
          '(chunk, toks) ← lex false s';
          Some (EmptyString,
                match chunk with
                | EmptyString => toks
                | _ => RawText chunk :: toks
                end)
        else if Ascii.eqb c "<" then None
        else '(chunk, toks) ← lex true s'; Some (String c chunk, toks)
      else
        if Ascii.eqb c "<" then
          '(chunk, toks) ← lex true s'; Some (EmptyString, RawTag chunk :: toks)
        else if Ascii.eqb c "&" then None
        else '(chunk, toks) ← lex false s'; Some (String c chunk, toks)
  end.

Definition tokens (s : string) : option (list RawToken) :=
  '(chunk, toks) ← lex false s;
  Some match chunk with
       | EmptyString => toks
       | _ => RawText chunk :: toks
       end.

Definition is_xml_space (c : ascii) : bool :=
  Ascii.eqb c " " || Ascii.eqb c "009" || Ascii.eqb c LF || Ascii.eqb c CR.

Definition is_name_start (c : ascii) : bool :=
  let n := nat_of_ascii c in
  ((65 <=? n)%nat && (n <=? 90)%nat) || ((97 <=? n)%nat && (n <=? 122)%nat)
  || Ascii.eqb c "_" || Ascii.eqb c ":".

Definition is_name_char (c : ascii) : bool :=
  let n := nat_of_ascii c in
  is_name_start c || ((48 <=? n)%nat && (n <=? 57)%nat)
  || Ascii.eqb c "-" || Ascii.eqb c ".".

Fixpoint all_chars (p : ascii -> bool) (s : string) : bool :=
  match s with
  | EmptyString => true
  | String c s' => p c && all_chars p s'
  end.

Definition is_name (s : string) : bool :=
  match s with
  | EmptyString => false
  | String c s' => is_name_start c && all_chars is_name_char s'
  end.

(** The scanner of the inside of a start tag. *)
Inductive TagState : Type :=
  | InName (name : string)
  | Gap (had_space : bool)                    (* between attributes *)
  | InAttrName (key : string)
  | AfterAttrName (key : string)              (* spaces before [=] *)
  | AfterEq (key : string)                    (* spaces before the quote *)
  | InValue (key : string) (quote : ascii) (value : string).

Record TagScan : Type := mkTagScan {
  ts_name : string;
  ts_attrib : gmap string string;
  ts_state : TagState
}.

Definition snoc (s : string) (c : ascii) : string := s +:+ String c EmptyString.

Definition tag_step (sc : TagScan) (c : ascii) : option TagScan :=
  let '(mkTagScan n a st) := sc in
  match st with
  | InName name =>
      if is_xml_space c then
        if is_name name then Some (mkTagScan name a (Gap true)) else None
      else Some (mkTagScan n a (InName (snoc name c)))
  | Gap had_space =>
      if is_xml_space c then Some (mkTagScan n a (Gap true))
      else if had_space && is_name_start c
           then Some (mkTagScan n a (InAttrName (String c EmptyString)))
           else None
  | InAttrName key =>
      if Ascii.eqb c "=" then Some (mkTagScan n a (AfterEq key))
      else if is_xml_space c then Some (mkTagScan n a (AfterAttrName key))
      else if is_name_char c then Some (mkTagScan n a (InAttrName (snoc key c)))
      else None
  | AfterAttrName key =>
      if Ascii.eqb c "=" then Some (mkTagScan n a (AfterEq key))
      else if is_xml_space c then Some sc
      else None
  | AfterEq key =>
      if Ascii.eqb c DQUOTE || Ascii.eqb c "'"
      then Some (mkTagScan n a (InValue key c EmptyString))
      else if is_xml_space c then Some sc
      else None
  | InValue key q v =>
      if Ascii.eqb c q then
        match a !! key with
        | Some _ => None                       (* duplicate attribute *)
        | None => Some (mkTagScan n (<[key:=v]> a) (Gap false))
        end
      else Some (mkTagScan n a (InValue key q (snoc v c)))
  end.

Fixpoint tag_scan (sc : TagScan) (s : string) : option TagScan :=
  match s with
  | EmptyString => Some sc
  | String c s' => sc' ← tag_step sc c; tag_scan sc' s'
  end.

(** The name and the attributes of a start tag [<s>]. *)
Definition start_tag (s : string) : option (string * gmap string string) :=
  sc ← tag_scan (mkTagScan EmptyString ∅ (InName EmptyString)) s;
  match ts_state sc with
  | InName name => if is_name name then Some (name, ts_attrib sc) else None
  | Gap _ => Some (ts_name sc, ts_attrib sc)
  | _ => None
  end.

Inductive Token : Type :=
  | TText (s : string)
  | TStart (name : string) (a : gmap string string)
  | TEnd (name : string)
  | TEmpty (name : string) (a : gmap string string)
  | TInstruction.

Fixpoint last_char (s : string) : option ascii :=
  match s with
  | EmptyString => None
  | String c EmptyString => Some c
  | String _ s' => last_char s'
  end.

Fixpoint drop_last (s : string) : string :=
  match s with
  | EmptyString => EmptyString
  | String c EmptyString => EmptyString
  | String c s' => String c (drop_last s')
  end.

(** The longest prefix without white space, and what follows it. *)
Fixpoint span_name (s : string) : string * string :=
  match s with
  | EmptyString => (EmptyString, EmptyString)
  | String c s' =>
      if is_xml_space c then (EmptyString, s)
      else let '(n, r) := span_name s' in (String c n, r)
  end.

Definition token (r : RawToken) : option Token :=
  match r with
  | RawText s => Some (TText s)
  | RawTag (String "/" s) =>
      let '(name, rest) := span_name s in
      if is_name name && all_chars is_xml_space rest
      then Some (TEnd name) else None
  | RawTag (String "?" s) =>
      if bool_decide (last_char s = Some "?"%char) then Some TInstruction else None
  | RawTag s =>
      if bool_decide (last_char s = Some "/"%char)
      then '(n, a) ← start_tag (drop_last s); Some (TEmpty n a)
      else '(n, a) ← start_tag s; Some (TStart n a)
  end.

(** An element that is still open: what its start tag gave, the text read
    before its first child, and its children so far, last one first. *)
Record Frame : Type := mkFrame {
  f_tag : string;
  f_attrib : gmap string string;
  f_text : option string;
  f_children : list Element
}.

Definition add_text (f : Frame) (s : string) : Frame :=
  match f_children f with
  | [] => mkFrame (f_tag f) (f_attrib f)
                  (Some (default EmptyString (f_text f) +:+ s)) []
  | _ => f                                     (* the tail of the last child *)
  end.

Definition add_child (f : Frame) (e : Element) : Frame :=
  mkFrame (f_tag f) (f_attrib f) (f_text f) (e :: f_children f).

Definition close (f : Frame) : Element :=
  Elem (f_tag f) (f_attrib f) (f_text f) (List.rev (f_children f)).

(** A finished element goes to its parent, or becomes the document. *)
Definition finish (e : Element) (stack : list Frame) (root : option Element)
  : option (list Frame * option Element) :=
  match stack with
  | p :: st => Some (add_child p e :: st, root)
  | [] => match root with
          | None => Some ([], Some e)
          | Some _ => None                     (* junk after the document *)
          end
  end.

Fixpoint build (stack : list Frame) (root : option Element) (toks : list Token)
  : option Element :=
  match toks with
  | [] => match stack with [] => root | _ => None end
  | TInstruction :: r => build stack root r
  | TText s :: r =>
      match stack with
      | f :: st => build (add_text f s :: st) root r
      | [] => if all_chars is_xml_space s then build [] root r else None
      end
  | TStart n a :: r =>
      match stack, root with
      | [], Some _ => None
      | _, _ => build (mkFrame n a None [] :: stack) root r
      end
  | TEmpty n a :: r =>
      '(stack', root') ← finish (Elem n a None []) stack root;
      build stack' root' r
  | TEnd n :: r =>
      match stack with
      | f :: st =>
          if String.eqb (f_tag f) n
          then '(stack', root') ← finish (close f) st root; build stack' root' r
          else None
      | [] => None
      end
  end.

(** [None] stands for [ParseError]. *)
Definition fromstring (s : string) : option Element :=
  raw ← tokens s;
  toks ← mapM token raw;
  build [] None toks.

End XML.

(** ** [zipfile] *)
Module zipfile.

(** A [bytes] value, by what [decode("u8")] makes of it. *)
Inductive Bytes : Type :=
  | Utf8 (s : string)
  | NotUtf8.

Definition decode_u8 (b : Bytes) : Result string :=
  match b with Utf8 s => Ok s | NotUtf8 => Raise UnicodeDecodeError end.

(** A member of an archive: its name and its content; [None] is a member
    that cannot be read back (bad CRC, truncated data). *)
Record ZipInfo : Type := mkZipInfo {
  filename : string;
  payload : option Bytes
}.

(** An opened archive, by its [filelist]. *)
Definition ZipFile : Type := list ZipInfo.

(** [zf.getinfo(name)]: the last member of that name. *)
Fixpoint getinfo (zf : ZipFile) (name : string) : option ZipInfo :=
  match zf with
  | [] => None
  | f :: zf' =>
      match getinfo zf' name with
      | Some g => Some g
      | None => if String.eqb (filename f) name then Some f else None
      end
  end.

(** Opening a member by its name and reading it fails. *)
Definition unreadable (zf : ZipFile) (f : ZipInfo) : bool :=
  match getinfo zf (filename f) with
  | Some g => bool_decide (payload g = None)
  | None => false
  end.

(** [zf.testzip()]: the name of the first member of the list that cannot be
    read when it is opened by its name. *)
Definition testzip (zf : ZipFile) : option string :=
  filename <$> List.find (unreadable zf) zf.

(** [zf.read(file)] *)
Definition read (file : ZipInfo) : Result Bytes :=
  or_raise (payload file) BadZipFile.

End zipfile.

(** ** [csv]: the [excel] dialect

    Comma as delimiter, the double quote as quote character, doubled to escape
    it, minimal quoting, CR LF as line terminator, no escape character. *)
Module csv.

Definition CRLF : string := String CR (String LF EmptyString).

(** The characters that make the writer quote a field. *)
Definition is_special (c : ascii) : bool :=
  Ascii.eqb c "," || Ascii.eqb c DQUOTE || Ascii.eqb c CR || Ascii.eqb c LF.

Fixpoint any_char (p : ascii -> bool) (s : string) : bool :=
  match s with
  | EmptyString => false
  | String c s' => p c || any_char p s'
  end.

Fixpoint double_quotes (s : string) : string :=
  match s with
  | EmptyString => EmptyString
  | String c s' =>
      if Ascii.eqb c DQUOTE then String DQUOTE (String DQUOTE (double_quotes s'))
      else String c (double_quotes s')
  end.

Definition write_field (s : string) : string :=
  if any_char is_special s
  then String DQUOTE (double_quotes s +:+ String DQUOTE EmptyString)
  else s.

Fixpoint join_fields (fields : list string) : string :=
  match fields with
  | [] => EmptyString
  | [f] => write_field f
  | f :: fs => write_field f +:+ String "," (join_fields fs)
  end.

(** [writer.writerow(row)]: the text written. [None] is written as the
    empty string; a record that would be empty although it has a field is
    written as an empty quoted field. *)
Definition writerow (row : list (option string)) : string :=
  let body := join_fields (default EmptyString <$> row) in
  match row, body with
  | _ :: _, EmptyString => String DQUOTE (String DQUOTE CRLF)
  | _, _ => body +:+ CRLF
  end.

(** [DictWriter(f, fieldnames).writerow(rowdict)] with [extrasaction] left at
    [raise] and [restval] at the empty string. *)
Definition DictWriter_writerow (fieldnames : list string)
    (rowdict : gmap string (option string)) : Result string :=
  if decide (dom rowdict ⊆ (list_to_set fieldnames : gset string))
  then Ok (writerow ((fun k => default (Some EmptyString) (rowdict !! k)) <$> fieldnames))
  else Raise ValueError.

(** [DictWriter.writeheader()] *)
Definition DictWriter_writeheader (fieldnames : list string) : Result string :=
  DictWriter_writerow fieldnames
    (list_to_map ((fun k => (k, Some k)) <$> fieldnames)).

(** *** The reader

    The state machine of [csv.reader], without the states that need an
    escape character and without a field size limit; every character,
    the null character too, is read as data. *)
Inductive ParserState : Type :=
  | START_RECORD | START_FIELD | IN_FIELD
  | IN_QUOTED_FIELD | QUOTE_IN_QUOTED_FIELD | EAT_CRNL.

#[global] Instance ParserState_eq_dec : EqDecision ParserState.
Proof. solve_decision. Defined.

Record Reader : Type := mkReader {
  state : ParserState;
  field : string;                 (* the field being read *)
  fields : list string            (* the fields of the record, in order *)
}.

Definition parse_reset : Reader := mkReader START_RECORD EmptyString [].

Definition parse_add_char (r : Reader) (c : ascii) (st : ParserState) : Reader :=
  mkReader st (field r +:+ String c EmptyString) (fields r).

Definition parse_save_field (r : Reader) (st : ParserState) : Reader :=
  mkReader st EmptyString (fields r ++ [field r]).

Definition set_state (r : Reader) (st : ParserState) : Reader :=
  mkReader st (field r) (fields r).

Definition is_newline (c : ascii) : bool := Ascii.eqb c LF || Ascii.eqb c CR.

(** [parse_process_char] on a character; [None] stands for [csv.Error]. *)
Definition process_char (r : Reader) (c : ascii) : option Reader :=
  match state r with
  | START_RECORD =>
      if is_newline c then Some (set_state r EAT_CRNL)
      else if Ascii.eqb c DQUOTE then Some (set_state r IN_QUOTED_FIELD)
      else if Ascii.eqb c "," then Some (parse_save_field r START_FIELD)
      else Some (parse_add_char r c IN_FIELD)
  | START_FIELD =>
      if is_newline c then Some (parse_save_field r EAT_CRNL)
      else if Ascii.eqb c DQUOTE then Some (set_state r IN_QUOTED_FIELD)
      else if Ascii.eqb c "," then Some (parse_save_field r START_FIELD)
      else Some (parse_add_char r c IN_FIELD)
  | IN_FIELD =>
      if is_newline c then Some (parse_save_field r EAT_CRNL)
      else if Ascii.eqb c "," then Some (parse_save_field r START_FIELD)
      else Some (parse_add_char r c IN_FIELD)
  | IN_QUOTED_FIELD =>
      if Ascii.eqb c DQUOTE then Some (set_state r QUOTE_IN_QUOTED_FIELD)
      else Some (parse_add_char r c IN_QUOTED_FIELD)
  | QUOTE_IN_QUOTED_FIELD =>
      if Ascii.eqb c DQUOTE then Some (parse_add_char r c IN_QUOTED_FIELD)
      else if Ascii.eqb c "," then Some (parse_save_field r START_FIELD)
      else if is_newline c then Some (parse_save_field r EAT_CRNL)
      else Some (parse_add_char r c IN_FIELD)
  | EAT_CRNL =>
      if is_newline c then Some r else None
  end.

(** [parse_process_char] at the end of a line. *)
Definition process_eol (r : Reader) : Reader :=
  match state r with
  | START_RECORD => r
  | START_FIELD | IN_FIELD | QUOTE_IN_QUOTED_FIELD => parse_save_field r START_RECORD
  | IN_QUOTED_FIELD => r
  | EAT_CRNL => set_state r START_RECORD
  end.

(** The source of lines is exhausted. *)
Definition at_end_of_input (r : Reader) : list (list string) :=
  if negb (String.eqb (field r) EmptyString) || bool_decide (state r = IN_QUOTED_FIELD)
  then [fields (parse_save_field r START_RECORD)] else [].

(** The end of a line: the record is returned when it is complete. *)
Definition end_of_line (r : Reader)
    (k : Reader -> option (list (list string))) : option (list (list string)) :=
  let r' := process_eol r in
  match state r' with
  | START_RECORD => cons (fields r') <$> k parse_reset
  | _ => k r'
  end.

(** The records of a text that is read line by line, a line ending after
    each line feed; [midline] tells that the current line has characters. *)
Fixpoint read (r : Reader) (midline : bool) (s : string)
  : option (list (list string)) :=
  match s with
  | EmptyString =>
      if midline then end_of_line r (fun r' => Some (at_end_of_input r'))
      else Some (at_end_of_input r)
  | String c s' =>
      r1 ← process_char r c;
      if Ascii.eqb c LF then end_of_line r1 (fun r' => read r' false s')
      else read r1 true s'
  end.

(** [list(csv.reader(io.StringIO(s)))] *)
Definition reader (s : string) : option (list (list string)) :=
  read parse_reset false s.

End csv.

(** ** The world: network, clock, log and object store *)

Inductive Level : Type := INFO | WARNING | ERROR.

(** What a run does to the outside, in order. [EvWriteCsv n] is a ghost event:
    it marks the entry into [write_to_csv] with [n] rows, so that a trace
    tells whether serialization was reached. *)
Inductive Event : Type :=
  | EvGet (url : string)                         (* requests.get(url) *)
  | EvSleep (seconds : nat)                      (* time.sleep *)
  | EvLog (level : Level)                        (* logging.info/warning/error *)
  | EvWriteCsv (rows : nat)
  | EvPutObject (bucket key body : string).      (* s3.put_object *)

#[global] Instance Level_eq_dec : EqDecision Level.
Proof. solve_decision. Defined.
#[global] Instance Event_eq_dec : EqDecision Event.
Proof. solve_decision. Defined.

(** A response, by the two views the program takes of it: [r.text], and what
    [ZipFile(BytesIO(r.content))] makes of [r.content], [None] when it raises
    [BadZipFile]. *)
Record Response : Type := mkResponse {
  text : string;
  archive : option zipfile.ZipFile
}.

Record World : Type := mkWorld {
  requests : nat;                 (* the number of [requests.get] so far *)
  trace : list Event
}.

Definition M (A : Type) : Type := World -> Result A * World.

#[global] Instance M_ret : MRet M := fun A a w => (Ok a, w).
#[global] Instance M_bind : MBind M := fun A B f m w =>
  match m w with
  | (Ok a, w') => f a w'
  | (Raise e, w') => (Raise e, w')
  end.

Definition lift {A} (r : Result A) : M A := fun w => (r, w).
Definition raise {A} (e : Exn) : M A := lift (Raise e).

Definition emit (ev : Event) : M unit :=
  fun w => (Ok tt, mkWorld (requests w) (trace w ++ [ev])).

Definition logging (level : Level) : M unit := emit (EvLog level).
Definition sleep (seconds : nat) : M unit := emit (EvSleep seconds).

(** [sys.exit()] *)
Definition exit {A} : M A := raise SystemExit.

(** [try: body / except ...: handler / (the rest of the function)]: the
    handlers see the exception of [body] only; [handler e = None] when no
    [except] clause matches [e]. *)
Definition try_except {A B} (body : M A) (handler : Exn -> option (M B))
    (rest : A -> M B) : M B :=
  fun w =>
    match body w with
    | (Ok a, w') => rest a w'
    | (Raise e, w') =>
        match handler e with
        | Some h => h w'
        | None => (Raise e, w')
        end
    end.

(** [l.pop()] on a list that is not empty: what is left, and the last item. *)
Fixpoint pop {A} (l : list A) : option (list A * A) :=
  match l with
  | [] => None
  | x :: l' => match pop l' with
               | None => Some ([], x)
               | Some (rest, y) => Some (x :: rest, y)
               end
  end.

(** [io.StringIO]: the buffer and the stream position. *)
Record StringIO : Type := mkStringIO {
  getvalue : string;
  tell : nat
}.

Definition StringIO_write (f : StringIO) (s : string) : StringIO :=
  let v := getvalue f +:+ s in mkStringIO v (String.length v).
Definition StringIO_seek (f : StringIO) (n : nat) : StringIO :=
  mkStringIO (getvalue f) n.
Definition StringIO_read (f : StringIO) : string :=
  substring (tell f) (String.length (getvalue f) - tell f) (getvalue f).

(** A record of the output: a [dict] from column names to [str] or [None]. *)
Abbreviation Row := (gmap string (option string)).

(** ** Sample data

    A configuration, feed documents and an archive of the shape the program
    is run on, used to evaluate it. *)
Module Sample.
Import ElementTree.

Definition URL : string := "https://registers.example/solr/select?q=*&wt=xml".

(** Three columns of the instrument records. *)
Definition TARGET_ELEMENTS : list (string * Path) :=
  [("FinInstrmGnlAttrbts.Id",
    [Self; Descendant (Some "FinInstrmGnlAttrbts"); Child "Id"]);
   ("FinInstrmGnlAttrbts.FullNm",
    [Self; Descendant (Some "FinInstrmGnlAttrbts"); Child "FullNm"]);
   ("Issr", [Self; Descendant (Some "Issr")])].

Definition entry (file_name link : string) : string :=
  "<doc><str name='file_name'>" +:+ file_name +:+ "</str>"
  +:+ "<str name='download_link'>" +:+ link +:+ "</str></doc>".

Definition feed (entries : list string) : string :=
  "<?xml version='1.0' encoding='UTF-8'?><response><result name='response'>"
  +:+ List.fold_right String.append EmptyString entries
  +:+ "</result></response>".

(** Dates 20230102, 20230101 and 20230101 again. *)
Definition feed_three : string :=
  feed [entry "DLTINS_20230102_01of01.zip" "http://firds.example/c.zip";
        entry "DLTINS_20230101_01of02.zip" "http://firds.example/a.zip";
        entry "DLTINS_20230101_02of02.zip" "http://firds.example/b.zip"].

(** A delta file, then a full file, whose name is outside the grammar. *)
Definition feed_off_grammar : string :=
  feed [entry "DLTINS_20230101_01of01.zip" "http://firds.example/a.zip";
        entry "FULINS_D_20230101_01of01.zip" "http://firds.example/f.zip"].

Definition feed_empty : string := feed [].

Definition record (id name issuer : string) : string :=
  "<FinInstrm><TermntdRcrd><FinInstrmGnlAttrbts><Id>" +:+ id
  +:+ "</Id><FullNm>" +:+ name +:+ "</FullNm></FinInstrmGnlAttrbts><Issr>"
  +:+ issuer +:+ "</Issr></TermntdRcrd></FinInstrm>".

Definition record_alpha : string := record "DE000A1" "Alpha, AG" "5299001".
Definition record_beta : string := record "FR000B2" "Beta SA" "9695002".

(** A record without issuer. *)
Definition record_no_issuer : string :=
  "<FinInstrm><NewRcrd><FinInstrmGnlAttrbts><Id>NL000C3</Id>"
  +:+ "<FullNm>Gamma NV</FullNm></FinInstrmGnlAttrbts></NewRcrd></FinInstrm>".

(** A record whose [Issr] element is not closed. *)
Definition record_malformed : string :=
  "<FinInstrm><NewRcrd><Issr>7245003</NewRcrd></FinInstrm>".

Definition member (filename xml : string) : zipfile.ZipInfo :=
  zipfile.mkZipInfo filename (Some (zipfile.Utf8 xml)).

Definition document (records : list string) : string :=
  "<Document><Pyld>" +:+ List.fold_right String.append EmptyString records
  +:+ "</Pyld></Document>".

Definition archive_two_members : zipfile.ZipFile :=
  [member "DLTINS_20230101_01of02.xml" (document [record_alpha]);
   member "DLTINS_20230101_02of02.xml" (document [record_beta])].

Definition member_with_malformed : zipfile.ZipInfo :=
  member "DLTINS_20230101_01of01.xml"
         (document [record_alpha; record_malformed; record_beta]).

Definition archive_corrupt : zipfile.ZipFile :=
  [member "DLTINS_20230101_01of02.xml" (document [record_alpha]);
   zipfile.mkZipInfo "DLTINS_20230101_02of02.xml" None].

(** Networks: down; the feed, then an archive; the feed with no entry; the
    archive after one failure. *)
Definition net_down : nat -> string -> option Response := fun _ _ => None.

Definition net_of (answers : list (option Response)) : nat -> string -> option Response :=
  fun n _ => mjoin (answers !! n).

Definition feed_response (text : string) : Response := mkResponse text None.
Definition archive_response (zf : zipfile.ZipFile) : Response :=
  mkResponse EmptyString (Some zf).

Definition s3_up : string -> string -> string -> bool := fun _ _ _ => true.
Definition client_up : string -> Result unit := fun _ => Ok tt.
Definition client_down : string -> Result unit := fun _ => Raise Exception_.

Definition w0 : World := mkWorld 0 [].

(** Two rows over the columns, with a value to quote and a [None]. *)
Definition row_alpha : Row :=
  <["FinInstrmGnlAttrbts.Id" := Some "DE000A1"]>
    (<["FinInstrmGnlAttrbts.FullNm" := Some "Alpha, AG"]>
       (<["Issr" := Some "5299001"]> ∅)).
Definition row_gamma : Row :=
  <["FinInstrmGnlAttrbts.Id" := Some "NL000C3"]>
    (<["FinInstrmGnlAttrbts.FullNm" := Some "Gamma NV"]>
       (<["Issr" := None]> ∅)).

(** The document that the reference parser reads in a text. *)
Definition tree_of (s : string) : Element :=
  default (Elem EmptyString ∅ None []) (XML.fromstring s).

Definition docs_of_feed (s : string) : list Element :=
  findall [Self; Descendant (Some "doc")] (tree_of s).

(** The answers of the network in four runs. *)
Definition net_feed_then_archive : nat -> string -> option Response :=
  net_of [Some (feed_response feed_three);
          Some (archive_response archive_two_members)].
Definition net_feed_then_down : nat -> string -> option Response :=
  net_of [Some (feed_response feed_three); None; None].
Definition net_feed_then_corrupt : nat -> string -> option Response :=
  net_of [Some (feed_response feed_three);
          Some (archive_response archive_corrupt)].
Definition net_retry_then_empty : nat -> string -> option Response :=
  net_of [None; Some (feed_response feed_empty)].

Definition target_a : string := "http://firds.example/a.zip".

(** A valid entry, then an entry whose date token is no integer. *)
Definition feed_bad_date : string :=
  feed [entry "DLTINS_20230101_01of01.zip" "http://firds.example/a.zip";
        entry "DLTINS_2023-01-02_01of01.zip" "http://firds.example/d.zip"].

(** An archive whose two members hold no record. *)
Definition archive_without_record : zipfile.ZipFile :=
  [member "DLTINS_20230101_01of02.xml" (document []);
   member "DLTINS_20230101_02of02.xml" (document [])].

Definition net_feed_off_grammar : nat -> string -> option Response :=
  net_of [Some (feed_response feed_off_grammar)].
Definition net_retry_then_feed : nat -> string -> option Response :=
  net_of [None; Some (feed_response feed_three)].
Definition net_feed_then_no_member : nat -> string -> option Response :=
  net_of [Some (feed_response feed_three); Some (archive_response [])].
Definition net_feed_then_no_record : nat -> string -> option Response :=
  net_of [Some (feed_response feed_three);
          Some (archive_response archive_without_record)].

End Sample.

(** ** The program *)
Section Program.

Set Default Proof Using "Type".

(** [Constants.py] is not part of the sources: its two constants are
    parameters. [TARGET_ELEMENTS] is a [dict] from column names to paths,
    in its insertion order, the paths compiled. *)
Variable URL : string.
Variable TARGET_ELEMENTS : list (string * ElementTree.Path).

(** [ElementTree.parse(StringIO(s))], [None] when it raises [ParseError]. *)
Variable ET_parse : string -> option Element.

(** The outside: the answer to the [n]-th [requests.get], [None] when it
    raises [RequestException]; whether [s3.put_object] succeeds;
    [boto3.client(service)], which builds the client or raises. *)
Variable net : nat -> string -> option Response.
Variable s3_put_object : string -> string -> string -> bool.
Variable boto3_client : string -> Result unit.

Definition requests_get (url : string) : M Response :=
  fun w =>
    (or_raise (net (requests w) url) RequestException,
     mkWorld (S (requests w)) (trace w ++ [EvGet url])).

(** *** [Utils.get_latest_file] *)

(** [{x.attrib.get("name"): x.text for x in doc.findall(".//str")}] *)
Definition file_info_of (doc : Element) : gmap (option string) (option string) :=
  List.fold_left
    (fun d x => <[ElementTree.attrib x !! "name" := ElementTree.text x]> d)
    (ElementTree.findall [ElementTree.Self; ElementTree.Descendant (Some "str")] doc)
    ∅.

(** [date_int < min_date], [min_date] starting at [float('inf')] ([None]). *)
Definition lt_min_date (date_int : Z) (min_date : option Z) : bool :=
  match min_date with
  | None => true
  | Some m => (date_int <? m)%Z
  end.

(** The body of [for doc in docs], on the pair [(min_date, target)]. *)
Definition latest_step (acc : option Z * option string) (doc : Element)
  : Result (option Z * option string) :=
  let '(min_date, target) := acc in
  let file_info := file_info_of doc in
  file_name ← or_raise (file_info !! Some "file_name") KeyError;
  file_name ← or_raise file_name TypeError;
  let match_ := re.match_file_date file_name in
  group1 ← or_raise match_ AttributeError;
  date_int ← or_raise (py_int group1) ValueError;
  if lt_min_date date_int min_date then
    link ← or_raise (file_info !! Some "download_link") KeyError;
    Ok (Some date_int, link)
  else Ok (min_date, target).

Fixpoint latest_loop (acc : option Z * option string) (docs : list Element)
  : Result (option Z * option string) :=
  match docs with
  | [] => Ok acc
  | doc :: docs' => acc' ← latest_step acc doc; latest_loop acc' docs'
  end.

(** Lines 38 to 60: from the text of the response to [target]. *)
Definition select_latest (r_text : string) : Result (option string) :=
  tree ← or_raise (ET_parse r_text) ParseError;
  let docs :=
    ElementTree.findall [ElementTree.Self; ElementTree.Descendant (Some "doc")] tree in
  '(_, target) ← latest_loop (None, None) docs;
  Ok target.

(** One level of [get_latest_file], the recursive call being [self]. *)
Definition get_latest_file_body (self : bool -> M (option string)) (retry : bool)
  : M (option string) :=
  try_except (requests_get URL)
    (fun e => match e with
              | RequestException =>
                  Some (if retry
                        then logging ERROR;; exit
                        else logging WARNING;; sleep 10;; self true)
              | _ => None
              end)
    (fun r => lift (select_latest (text r))).

(** [get_latest_file(retry)]: a call with [retry=True] never calls itself,
    so two levels are the whole recursion. *)
Definition get_latest_file (retry : bool) : M (option string) :=
  get_latest_file_body (get_latest_file_body (fun _ => exit)) retry.

(** *** [Utils.get_data] *)

(** [{alias: tree.find(element).text for alias, element in
    TARGET_ELEMENTS.items()}]: [tree.find] gives [None] when nothing is on
    the path, and [None.text] raises [AttributeError]. *)
Fixpoint project_items (tree : Element) (items : list (string * ElementTree.Path))
    (d : Row) : Result Row :=
  match items with
  | [] => Ok d
  | (alias, element) :: items' =>
      found ← or_raise (ElementTree.find element tree) AttributeError;
      project_items tree items' (<[alias := ElementTree.text found]> d)
  end.

Definition project_record (tree : Element) : Result Row :=
  project_items tree TARGET_ELEMENTS ∅.

(** [while records: ...], the iterations bounded by [fuel]. *)
Fixpoint records_loop (fuel : nat) (records : list string) (output : list Row)
  : Result (list Row) :=
  match fuel with
  | O => Ok output
  | S fuel' =>
      match pop records with
      | None => Ok output
      | Some (records', record) =>
          tree ← or_raise (ET_parse record) ParseError;
          row ← project_record tree;
          records_loop fuel' records' (output ++ [row])
      end
  end.

(** [for file in zf.filelist: ...], on the pair [(output, file)]; [file] is
    unbound ([None]) before the first iteration. *)
Fixpoint files_loop (filelist : list zipfile.ZipInfo)
    (output : list Row) (file : option zipfile.ZipInfo)
  : Result (list Row * option zipfile.ZipInfo) :=
  match filelist with
  | [] => Ok (output, file)
  | f :: filelist' =>
      bytes ← zipfile.read f;
      xml ← zipfile.decode_u8 bytes;
      let records := re.findall_records xml in
      output' ← records_loop (length records) records output;
      files_loop filelist' output' (Some f)
  end.

(** Lines 97 to 110: from the opened archive to [(output, file.filename)]. *)
Definition extract (zf : zipfile.ZipFile) : Result (list Row * string) :=
  '(output, file) ← files_loop zf [] None;
  file ← or_raise file UnboundLocalError;
  Ok (output, zipfile.filename file).

(** The [try] block of [get_data]. *)
Definition fetch_archive (target : string) : M zipfile.ZipFile :=
  r ← requests_get target;
  zf ← lift (or_raise (archive r) BadZipFile);
  let bad_file := zipfile.testzip zf in
  if from_option str_truthy false bad_file
  then raise Exception_
  else logging INFO;; mret zf.

Definition get_data_body (self : string -> bool -> M (list Row * string))
    (target : string) (retry : bool) : M (list Row * string) :=
  try_except (fetch_archive target)
    (fun e => match e with
              | RequestException =>
                  Some (if retry
                        then logging ERROR;; exit
                        else logging WARNING;; sleep 10;; self target true)
              | _ => if is_Exception e then Some (logging ERROR;; exit) else None
              end)
    (fun zf => lift (extract zf)).

Definition get_data (target : string) (retry : bool) : M (list Row * string) :=
  get_data_body (get_data_body (fun _ _ => exit)) target retry.

(** *** [Utils.write_to_csv] *)

Definition fieldnames : list string := TARGET_ELEMENTS.*1.

(** [while output: ...], the iterations bounded by [fuel]. The result is
    the stream and what is left of the list [output]. *)
Fixpoint rows_loop (fuel : nat) (output : list Row) (outf : StringIO)
  : M (StringIO * list Row) :=
  match fuel with
  | O => mret (outf, output)
  | S fuel' =>
      match pop output with
      | None => mret (outf, output)
      | Some (output', row) =>
          match csv.DictWriter_writerow fieldnames row with
          | Ok line => rows_loop fuel' output' (StringIO_write outf line)
          | Raise e =>
              if is_Exception e
              then logging ERROR;; rows_loop fuel' output' outf
              else raise e
          end
      end
  end.

(** [write_to_csv(output)]: the stream returned, and the list [output] of
    the caller as the call leaves it. *)
Definition write_to_csv (output : list Row) : M (StringIO * list Row) :=
  emit (EvWriteCsv (length output));;
  let outf := mkStringIO EmptyString 0 in
  header ← lift (csv.DictWriter_writeheader fieldnames);
  let outf := StringIO_write outf header in
  '(outf, output) ← rows_loop (length output) output outf;
  let outf := StringIO_seek outf 0 in
  mret (outf, output).

(** *** [Utils.upload_to_s3]

    The client is built before the [try]: an exception of [boto3.client]
    leaves the function. A failure of [put_object] is caught and logged. *)
Definition upload_to_s3 (outf : StringIO) (bucket file_name : string) : M unit :=
  lift (boto3_client "s3");;
  let body := StringIO_read outf in
  emit (EvPutObject bucket file_name body);;
  if s3_put_object bucket file_name body then mret tt else logging ERROR.

(** *** [main.put_first_firds_file_in_s3] *)
Definition put_first_firds_file_in_s3 (bucket : string) : M unit :=
  target ← get_latest_file false;
  match target with
  | None | Some EmptyString => logging WARNING
  | Some target =>
      '(output, file_name) ← get_data target false;
      match output with
      | [] => logging WARNING
      | _ =>
          '(outf, _) ← write_to_csv output;
          upload_to_s3 outf bucket file_name
      end
  end.

(** *** The script: everything is caught and logged. *)
Definition main (argv : list string) : M unit :=
  try_except
    (logging INFO;;
     match argv with
     | [_; bucket] => put_first_firds_file_in_s3 bucket;; logging INFO
     | _ => raise Exception_
     end)
    (fun _ => Some (logging ERROR))
    (fun _ => mret tt).

(** *** Notions used by the properties *)

(** The entries of a feed document. *)
Definition docs_of (tree : Element) : list Element :=
  ElementTree.findall [ElementTree.Self; ElementTree.Descendant (Some "doc")] tree.

(** A valid entry: the date parsed from its [file_name], and its
    [download_link]. *)
Definition entry_of (doc : Element) : option (Z * option string) :=
  file_name ← file_info_of doc !! Some "file_name";
  file_name ← file_name;
  group1 ← re.match_file_date file_name;
  date_int ← py_int group1;
  link ← file_info_of doc !! Some "download_link";
  Some (date_int, link).

(** An entry whose [file_name] is a string outside the grammar
    [DLTINS_<date>_<suffix>.zip]. *)
Definition off_grammar (doc : Element) : Prop :=
  exists file_name,
    file_info_of doc !! Some "file_name" = Some (Some file_name)
    /\ re.match_file_date file_name = None.

(** A record fragment that parses, and one that also has every configured
    path. *)
Definition well_formed (record : string) : Prop := is_Some (ET_parse record).
Definition projectable (record : string) : Prop :=
  exists tree, ET_parse record = Some tree /\ is_Ok (project_record tree).

(** A member of an archive that is read, decoded and projected without an
    exception. *)
Definition processable (file : zipfile.ZipInfo) : Prop :=
  exists xml, zipfile.payload file = Some (zipfile.Utf8 xml)
              /\ Forall projectable (re.findall_records xml).

(** The columns of a row as text, [None] and a missing key as the empty
    string. *)
Definition render (row : Row) : list string :=
  (fun k => default EmptyString (default (Some EmptyString) (row !! k)))
    <$> fieldnames.

(** A row whose keys are configured columns. *)
Definition over_columns (row : Row) : Prop :=
  dom row ⊆ (list_to_set fieldnames : gset string).

(** Events of the serialization and of the sink. *)
Definition is_output (ev : Event) : bool :=
  match ev with
  | EvWriteCsv _ | EvPutObject _ _ _ => true
  | _ => false
  end.

(** The world after more events and [n] more requests. *)
Definition after (w : World) (n : nat) (evs : list Event) : World :=
  mkWorld (n + requests w) (trace w ++ evs).

(** What the loop keeps of a valid entry. *)
Definition pick (acc : option Z * option string) (e : Z * option string)
  : option Z * option string :=
  if lt_min_date e.1 acc.1 then (Some e.1, e.2) else acc.

(** The number of fetches in a list of events. *)
Definition fetches (evs : list Event) : nat :=
  length (List.filter (fun ev => match ev with EvGet _ => true | _ => false end) evs).

(** The events of a fetch that fails, is retried after the backoff, and
    fails again. *)
Definition failed_twice (url : string) : list Event :=
  [EvGet url; EvLog WARNING; EvSleep 10; EvGet url; EvLog ERROR].

(** The reader is about to read a field. *)
Definition at_start (st : csv.ParserState) : Prop :=
  st = csv.START_RECORD \/ st = csv.START_FIELD.

(** The text of some records, one after the other. *)
Definition writerows (rows : list (list (option string))) : string :=
  List.fold_right (fun row text => csv.writerow row +:+ text) EmptyString rows.

(** The record that [DictWriter.writerow] hands to the writer. *)
Definition row_values (row : Row) : list (option string) :=
  (fun k => default (Some EmptyString) (row !! k)) <$> fieldnames.

(** *** Notions used by the further properties *)

(** The date parsed from the [file_name] of an entry, and the value of its
    [download_link] key. *)
Definition date_of (doc : Element) : option Z :=
  file_name ← file_info_of doc !! Some "file_name";
  file_name ← file_name;
  group1 ← re.match_file_date file_name;
  py_int group1.

Definition link_of (doc : Element) : option (option string) :=
  file_info_of doc !! Some "download_link".

(** The [str] elements of an entry whose [name] attribute is [key]. *)
Definition named (key : option string) (doc : Element) : list Element :=
  List.filter (fun x => bool_decide (ElementTree.attrib x !! "name" = key))
    (ElementTree.findall [ElementTree.Self; ElementTree.Descendant (Some "str")] doc).

(** A string without the character [c]. *)
Definition without (c : ascii) (s : string) : Prop :=
  csv.any_char (Ascii.eqb c) s = false.

(** The row of a fragment that parses and has every configured path. *)
Definition record_row (record : string) : option Row :=
  tree ← ET_parse record;
  match project_record tree with
  | Ok row => Some row
  | Raise _ => None
  end.

(** The fragments of a member, in the order of its text. *)
Definition member_records (file : zipfile.ZipInfo) : list string :=
  match zipfile.payload file with
  | Some (zipfile.Utf8 xml) => re.findall_records xml
  | _ => []
  end.

(** The rows of the members of an archive, each member in the order of its
    text. *)
Definition rows_in_order (zf : zipfile.ZipFile) : list Row :=
  zf ≫= fun file => omap record_row (member_records file).

(** The rows as the extraction lists them: member after member, the
    fragments of each member from the last to the first. *)
Definition rows_as_extracted (zf : zipfile.ZipFile) : list Row :=
  zf ≫= fun file => rev (omap record_row (member_records file)).

(** The rows that the writer accepts. *)
Definition is_over_columns (row : Row) : bool :=
  bool_decide (dom row ⊆ (list_to_set fieldnames : gset string)).
Definition kept (rows : list Row) : list Row := List.filter is_over_columns rows.

(** The number of objects put in a list of events. *)
Definition puts (evs : list Event) : nat :=
  length (List.filter
            (fun ev => match ev with EvPutObject _ _ _ => true | _ => false end) evs).

(** The addresses fetched in a list of events, in their order. *)
Definition fetched (evs : list Event) : list string :=
  omap (fun ev => match ev with EvGet url => Some url | _ => None end) evs.

(** What [upload_to_s3] adds to the trace once the client is built. *)
Definition upload_events (bucket file_name body : string) : list Event :=
  EvPutObject bucket file_name body
  :: (if s3_put_object bucket file_name body then [] else [EvLog ERROR]).

(** ** Properties *)

(** *** The effects of the two fetches *)

Ltac run_M :=
  unfold put_first_firds_file_in_s3, get_latest_file, get_latest_file_body,
    get_data, get_data_body, fetch_archive, try_except, requests_get,
    logging, sleep, exit, raise, lift, emit, after, mbind, mret, M_bind, M_ret;
  simpl.

Lemma after_after w n m evs evs' :
  after (after w n evs) m evs' = after w (m + n) (evs ++ evs').
Proof. unfold after. simpl. f_equal; [lia | by rewrite app_assoc]. Qed.

Lemma after_nothing w : after w 0 [] = w.
Proof. destruct w. unfold after. simpl. by rewrite app_nil_r. Qed.

Lemma get_latest_file_unfold retry w :
  get_latest_file retry w = get_latest_file_body get_latest_file retry w.
Proof.
  run_M. destruct (net (requests w) URL); simpl; [done|]. by destruct retry.
Qed.

Lemma get_data_unfold target retry w :
  get_data target retry w = get_data_body get_data target retry w.
Proof.
  run_M. destruct (net (requests w) target) as [r|]; simpl.
  - destruct (archive r) as [zf|]; simpl; [|done].
    destruct (from_option str_truthy false (zipfile.testzip zf)); done.
  - by destruct retry.
Qed.

Lemma get_latest_file_answered retry w r :
  net (requests w) URL = Some r ->
  get_latest_file retry w = (select_latest (text r), after w 1 [EvGet URL]).
Proof. intros H. run_M. by rewrite H. Qed.

Lemma get_latest_file_retries w :
  net (requests w) URL = None ->
  get_latest_file false w
  = get_latest_file true (after w 1 [EvGet URL; EvLog WARNING; EvSleep 10]).
Proof.
  intros H. run_M. rewrite H. simpl. rewrite <- !app_assoc. simpl.
  reflexivity.
Qed.

Lemma get_latest_file_gives_up w :
  net (requests w) URL = None ->
  get_latest_file true w = (Raise SystemExit, after w 1 [EvGet URL; EvLog ERROR]).
Proof. intros H. run_M. rewrite H. simpl. by rewrite <- !app_assoc. Qed.

Lemma get_data_answered target retry w r zf :
  net (requests w) target = Some r ->
  archive r = Some zf ->
  from_option str_truthy false (zipfile.testzip zf) = false ->
  get_data target retry w = (extract zf, after w 1 [EvGet target; EvLog INFO]).
Proof.
  intros H Hzf Htest. run_M. rewrite H. simpl. rewrite Hzf. simpl.
  rewrite Htest. simpl. by rewrite <- !app_assoc.
Qed.

Lemma get_data_invalid target retry w r :
  net (requests w) target = Some r ->
  (archive r = None
   \/ exists zf, archive r = Some zf
                 /\ from_option str_truthy false (zipfile.testzip zf) = true) ->
  get_data target retry w
  = (Raise SystemExit, after w 1 [EvGet target; EvLog ERROR]).
Proof.
  intros H [Hzf|(zf & Hzf & Htest)]; run_M; rewrite H; simpl; rewrite Hzf; simpl.
  - by rewrite <- !app_assoc.
  - rewrite Htest. simpl. by rewrite <- !app_assoc.
Qed.

Lemma get_data_retries target w :
  net (requests w) target = None ->
  get_data target false w
  = get_data target true (after w 1 [EvGet target; EvLog WARNING; EvSleep 10]).
Proof.
  intros H. run_M. rewrite H. simpl. rewrite <- !app_assoc. simpl.
  reflexivity.
Qed.

Lemma get_data_gives_up target w :
  net (requests w) target = None ->
  get_data target true w
  = (Raise SystemExit, after w 1 [EvGet target; EvLog ERROR]).
Proof. intros H. run_M. rewrite H. simpl. by rewrite <- !app_assoc. Qed.

(** What the caller does with the result of each stage. *)
Lemma put_first_no_target bucket w w' :
  get_latest_file false w = (Ok None, w') ->
  put_first_firds_file_in_s3 bucket w = (Ok tt, after w' 0 [EvLog WARNING]).
Proof.
  intros H. unfold put_first_firds_file_in_s3, mbind, M_bind. by rewrite H.
Qed.

Lemma put_first_selection_raises bucket w w' e :
  get_latest_file false w = (Raise e, w') ->
  put_first_firds_file_in_s3 bucket w = (Raise e, w').
Proof.
  intros H. unfold put_first_firds_file_in_s3, mbind, M_bind. by rewrite H.
Qed.

Lemma put_first_extraction_raises bucket w w' w'' target e :
  get_latest_file false w = (Ok (Some target), w') ->
  target <> EmptyString ->
  get_data target false w' = (Raise e, w'') ->
  put_first_firds_file_in_s3 bucket w = (Raise e, w'').
Proof.
  intros H Hne Hd. unfold put_first_firds_file_in_s3, mbind, M_bind. rewrite H.
  destruct target; [done|]. by rewrite Hd.
Qed.

(** *** The selection loop *)

Lemma latest_step_entry acc doc e :
  entry_of doc = Some e -> latest_step acc doc = Ok (pick acc e).
Proof.
  unfold entry_of, latest_step, pick. destruct acc as [min_date target].
  destruct (file_info_of doc !! Some "file_name") as [[file_name|]|]; simpl; try discriminate.
  destruct (re.match_file_date file_name) as [g|]; simpl; try discriminate.
  destruct (py_int g) as [d|]; simpl; try discriminate.
  destruct (file_info_of doc !! Some "download_link") as [link|]; simpl; try discriminate.
  intros [= <-]. simpl. by destruct (lt_min_date d min_date).
Qed.

Lemma latest_loop_entries docs : forall acc es,
  Forall2 (fun doc e => entry_of doc = Some e) docs es ->
  latest_loop acc docs = Ok (List.fold_left pick es acc).
Proof.
  induction docs as [|doc docs IH]; intros acc es H; inversion H; subst; simpl.
  - reflexivity.
  - erewrite latest_step_entry by eassumption. simpl. by apply IH.
Qed.

(** [pick] folds to the first entry of minimal date, or keeps a bound that
    no entry beats. *)
Lemma fold_pick_spec es : forall m t,
  (List.fold_left pick es (Some m, t) = (Some m, t)
   /\ forall j e, es !! j = Some e -> (m <= e.1)%Z)
  \/ (exists i e, es !! i = Some e /\ (e.1 < m)%Z
      /\ List.fold_left pick es (Some m, t) = (Some e.1, e.2)
      /\ forall j e', es !! j = Some e' ->
           (e.1 <= e'.1)%Z /\ (j < i -> (e.1 < e'.1)%Z)).
Proof.
  induction es as [|[d l] es IH]; intros m t; simpl.
  - left. split; [done|]. intros j e. by rewrite lookup_nil.
  - change (pick (Some m, t) (d, l))
      with (if (d <? m)%Z then (Some d, l) else (Some m, t)).
    destruct (Z.ltb_spec d m) as [Hlt|Hge].
    + right. destruct (IH d l) as [[Heq Hall]|(i & e & Hi & Hlt' & Heq & Hall)].
      * exists 0, (d, l). simpl. split_and!; [done|done|done|].
        intros [|j] e' Hj; simpl in *.
        -- injection Hj as <-. simpl. lia.
        -- specialize (Hall _ _ Hj). lia.
      * exists (S i), e. simpl. split_and!; [done|lia|done|].
        intros [|j] e' Hj; simpl in *.
        -- injection Hj as <-. simpl. lia.
        -- destruct (Hall _ _ Hj) as [Hle Hbefore]. split; [done|].
           intros ?. apply Hbefore. lia.
    + destruct (IH m t) as [[Heq Hall]|(i & e & Hi & Hlt' & Heq & Hall)].
      * left. split; [done|]. intros [|j] e' Hj; simpl in *.
        -- injection Hj as <-. simpl. lia.
        -- eauto.
      * right. exists (S i), e. simpl. split_and!; [done|done|done|].
        intros [|j] e' Hj; simpl in *.
        -- injection Hj as <-. simpl. lia.
        -- destruct (Hall _ _ Hj) as [Hle Hbefore]. split; [done|].
           intros ?. apply Hbefore. lia.
Qed.

Lemma fold_pick_first_min e es :
  exists i e0, (e :: es) !! i = Some e0
    /\ List.fold_left pick (e :: es) (None, None) = (Some e0.1, e0.2)
    /\ forall j e', (e :: es) !! j = Some e' ->
         (e0.1 <= e'.1)%Z /\ (j < i -> (e0.1 < e'.1)%Z).
Proof.
  destruct e as [d l]. simpl.
  change (pick (None, None) (d, l)) with (Some d, l).
  destruct (fold_pick_spec es d l) as [[Heq Hall]|(i & e & Hi & Hlt & Heq & Hall)].
  - exists 0, (d, l). simpl. split_and!; [done|done|].
    intros [|j] e' Hj; simpl in *.
    + injection Hj as <-. simpl. lia.
    + specialize (Hall _ _ Hj). lia.
  - exists (S i), e. simpl. split_and!; [done|done|].
    intros [|j] e' Hj; simpl in *.
    + injection Hj as <-. simpl. lia.
    + destruct (Hall _ _ Hj) as [Hle Hbefore]. split; [done|].
      intros ?. apply Hbefore. lia.
Qed.

Lemma Forall_entries docs :
  Forall (fun doc => is_Some (entry_of doc)) docs ->
  exists es, Forall2 (fun doc e => entry_of doc = Some e) docs es.
Proof.
  induction 1 as [|doc docs [e He] _ [es IH]].
  - by exists [].
  - exists (e :: es). by constructor.
Qed.

Lemma latest_loop_app docs1 : forall acc docs2,
  latest_loop acc (docs1 ++ docs2)
  = acc' ← latest_loop acc docs1; latest_loop acc' docs2.
Proof.
  induction docs1 as [|doc docs1 IH]; intros acc docs2; simpl; [done|].
  destruct (latest_step acc doc) as [acc'|e]; simpl; [apply IH|done].
Qed.

Lemma latest_step_off_grammar acc doc :
  off_grammar doc -> latest_step acc doc = Raise AttributeError.
Proof.
  intros (file_name & Hname & Hmatch). unfold latest_step.
  destruct acc as [min_date target]. rewrite Hname. simpl. by rewrite Hmatch.
Qed.

(** C3. For every feed document whose entries are all valid, and which has
    at least one, the selection returns the download reference of the entry
    whose parsed date is the numeric minimum over all entries; among entries
    of minimal date, the first in document order is the one selected. *)
Theorem select_latest_first_minimum (r_text : string) (tree : Element) :
  ET_parse r_text = Some tree ->
  docs_of tree <> [] ->
  Forall (fun doc => is_Some (entry_of doc)) (docs_of tree) ->
  exists i doc date link,
    docs_of tree !! i = Some doc
    /\ entry_of doc = Some (date, link)
    /\ select_latest r_text = Ok link
    /\ (forall retry w r,
          net (requests w) URL = Some r -> text r = r_text ->
          get_latest_file retry w = (Ok link, after w 1 [EvGet URL]))
    /\ forall j doc' date' link',
         docs_of tree !! j = Some doc' ->
         entry_of doc' = Some (date', link') ->
         (date <= date')%Z /\ (j < i -> (date < date')%Z).
Proof.
  intros Hparse Hne Hvalid.
  cut (exists i doc date link,
    docs_of tree !! i = Some doc
    /\ entry_of doc = Some (date, link)
    /\ select_latest r_text = Ok link
    /\ forall j doc' date' link',
         docs_of tree !! j = Some doc' ->
         entry_of doc' = Some (date', link') ->
         (date <= date')%Z /\ (j < i -> (date < date')%Z)).
  { intros (i & doc & date & link & Hi & Hentry & Hsel & Hmin).
    exists i, doc, date, link. split_and!; [done|done|done| |done].
    intros retry w r Hnet Htext.
    rewrite (get_latest_file_answered _ _ _ Hnet). by rewrite Htext, Hsel. }
  destruct (Forall_entries _ Hvalid) as [es Hes].
  unfold select_latest. rewrite Hparse. simpl. fold (docs_of tree).
  rewrite (latest_loop_entries _ _ _ Hes).
  destruct es as [|e es].
  { inversion Hes as [Hnil|]. by rewrite <- Hnil in Hne. }
  destruct (fold_pick_first_min e es) as (i & e0 & Hi & Hfold & Hmin).
  rewrite Hfold. simpl.
  destruct (Forall2_lookup_r _ _ _ _ _ Hes Hi) as (doc & Hdoc & Hentry).
  exists i, doc, e0.1, e0.2. split_and!; [done| by destruct e0 |done|].
  intros j doc' date' link' Hj Hentry'.
  destruct (Forall2_lookup_l _ _ _ _ _ Hes Hj) as (e' & He' & Hentry'').
  rewrite Hentry' in Hentry''. injection Hentry'' as <-.
  apply (Hmin _ _ He').
Qed.

(** C5 (as amended). An entry whose file name is outside the grammar makes
    the whole selection fail, whatever its siblings are: the selection
    raises, and it raises [AttributeError] when the entries before the
    offending one are valid. No matching sibling is selected. *)
Theorem select_latest_off_grammar_entry
    (r_text : string) (tree : Element) (before after_ : list Element) (doc : Element) :
  ET_parse r_text = Some tree ->
  docs_of tree = before ++ doc :: after_ ->
  off_grammar doc ->
  is_Raise (select_latest r_text)
  /\ (Forall (fun d => is_Some (entry_of d)) before ->
      select_latest r_text = Raise AttributeError)
  /\ (forall retry w r,
        net (requests w) URL = Some r -> text r = r_text ->
        get_latest_file retry w = (select_latest r_text, after w 1 [EvGet URL])).
Proof.
  intros Hparse Hdocs Hoff.
  cut (is_Raise (select_latest r_text)
       /\ (Forall (fun d => is_Some (entry_of d)) before ->
           select_latest r_text = Raise AttributeError)).
  { intros [Hraise Hattr]. split_and!; [done|done|].
    intros retry w r Hnet <-. by apply get_latest_file_answered. }
  unfold select_latest. rewrite Hparse. simpl. fold (docs_of tree). rewrite Hdocs.
  rewrite latest_loop_app.
  split.
  - destruct (latest_loop (None, None) before) as [acc|e]; simpl.
    + rewrite (latest_step_off_grammar _ _ Hoff). simpl. by eexists.
    + by eexists.
  - intros Hvalid.
    destruct (Forall_entries _ Hvalid) as [es Hes].
    rewrite (latest_loop_entries _ _ _ Hes). simpl.
    by rewrite (latest_step_off_grammar _ _ Hoff).
Qed.

(** C8. A feed document without entries selects nothing: the selection
    returns [None], not an exception, and the caller logs a notice and
    returns normally, without fetching an archive, serializing or writing to
    the sink; so it is on the first answer of the registry and on the
    answer to the retry. *)
Theorem select_latest_no_entry (r_text : string) (tree : Element) :
  ET_parse r_text = Some tree ->
  docs_of tree = [] ->
  select_latest r_text = Ok None
  /\ (forall bucket w r,
        net (requests w) URL = Some r -> text r = r_text ->
        get_latest_file false w = (Ok None, after w 1 [EvGet URL])
        /\ put_first_firds_file_in_s3 bucket w
           = (Ok tt, after w 1 [EvGet URL; EvLog WARNING]))
  /\ (forall bucket w r,
        net (requests w) URL = None ->
        net (S (requests w)) URL = Some r -> text r = r_text ->
        put_first_firds_file_in_s3 bucket w
        = (Ok tt, after w 2 [EvGet URL; EvLog WARNING; EvSleep 10;
                             EvGet URL; EvLog WARNING])).
Proof.
  intros Hparse Hdocs.
  assert (Hsel : select_latest r_text = Ok None).
  { unfold select_latest. rewrite Hparse. simpl. fold (docs_of tree).
    by rewrite Hdocs. }
  split_and!; [done| |].
  - intros bucket w r Hnet Htext.
    assert (Hget : get_latest_file false w = (Ok None, after w 1 [EvGet URL])).
    { rewrite (get_latest_file_answered _ _ _ Hnet). by rewrite Htext, Hsel. }
    split; [done|]. rewrite (put_first_no_target _ _ _ Hget).
    by rewrite after_after.
  - intros bucket w r Hfail Hnet Htext.
    assert (Hget : get_latest_file false w
                   = (Ok None, after w 2 [EvGet URL; EvLog WARNING; EvSleep 10;
                                          EvGet URL])).
    { rewrite (get_latest_file_retries _ Hfail).
      erewrite get_latest_file_answered by exact Hnet.
      by rewrite Htext, Hsel, after_after. }
    rewrite (put_first_no_target _ _ _ Hget). by rewrite after_after.
Qed.

(** C4. A transport failure of the registry fetch or of the archive fetch
    is followed by the fixed backoff and by one retry, which is not retried
    again; when the retry fails too the run ends with [SystemExit]: the
    fetch has been made exactly twice, and neither the serialization nor
    the sink is reached. *)
Theorem transport_failure_retried_once_then_fatal :
  (forall url,
     fetches (failed_twice url) = 2
     /\ forallb (fun ev => negb (is_output ev)) (failed_twice url) = true)
  /\ (forall w,
        net (requests w) URL = None ->
        get_latest_file false w
        = get_latest_file true (after w 1 [EvGet URL; EvLog WARNING; EvSleep 10])
        /\ (net (S (requests w)) URL = None ->
            forall bucket,
              get_latest_file false w = (Raise SystemExit, after w 2 (failed_twice URL))
              /\ put_first_firds_file_in_s3 bucket w
                 = (Raise SystemExit, after w 2 (failed_twice URL))))
  /\ (forall target w,
        net (requests w) target = None ->
        get_data target false w
        = get_data target true (after w 1 [EvGet target; EvLog WARNING; EvSleep 10])
        /\ (net (S (requests w)) target = None ->
            get_data target false w
            = (Raise SystemExit, after w 2 (failed_twice target))
            /\ forall bucket w0,
                 get_latest_file false w0 = (Ok (Some target), w) ->
                 target <> EmptyString ->
                 put_first_firds_file_in_s3 bucket w0
                 = (Raise SystemExit, after w 2 (failed_twice target))))
  /\ (forall w target,
        requests (get_latest_file true w).2 = S (requests w)
        /\ requests (get_data target true w).2 = S (requests w)).
Proof.
  split_and!.
  - done.
  - intros w Hfail. split; [by apply get_latest_file_retries|].
    intros Hfail' bucket.
    assert (Hget : get_latest_file false w
                   = (Raise SystemExit, after w 2 (failed_twice URL))).
    { rewrite (get_latest_file_retries _ Hfail).
      rewrite get_latest_file_gives_up by exact Hfail'.
      by rewrite after_after. }
    split; [done|]. by apply put_first_selection_raises.
  - intros target w Hfail. split; [by apply get_data_retries|].
    intros Hfail'.
    assert (Hget : get_data target false w
                   = (Raise SystemExit, after w 2 (failed_twice target))).
    { rewrite (get_data_retries _ _ Hfail).
      rewrite get_data_gives_up by exact Hfail'.
      by rewrite after_after. }
    split; [done|]. intros bucket w0 Hsel Hne.
    by eapply put_first_extraction_raises.
  - intros w target. split.
    + run_M. by destruct (net (requests w) URL).
    + run_M. destruct (net (requests w) target) as [r|]; simpl; [|done].
      destruct (archive r) as [zf|]; simpl; [|done].
      by destruct (from_option str_truthy false (zipfile.testzip zf)).
Qed.

(** *** The extraction loops *)

Lemma getinfo_member zf name g :
  zipfile.getinfo zf name = Some g -> g ∈ zf.
Proof.
  induction zf as [|f zf IH]; simpl; [done|].
  destruct (zipfile.getinfo zf name) as [g'|].
  - intros [= ->]. right. by apply IH.
  - destruct (String.eqb (zipfile.filename f) name); [|done].
    intros [= ->]. by left.
Qed.

Lemma testzip_member zf :
  is_Some (zipfile.testzip zf) -> exists g, g ∈ zf /\ zipfile.payload g = None.
Proof.
  unfold zipfile.testzip. intros [name Hname].
  destruct (List.find (zipfile.unreadable zf) zf) as [f|] eqn:Hfind; [|done].
  apply find_some in Hfind as [_ Hbad]. unfold zipfile.unreadable in Hbad.
  destruct (zipfile.getinfo zf (zipfile.filename f)) as [g|] eqn:Hg; [|done].
  exists g. split; [by eapply getinfo_member|]. by apply bool_decide_eq_true in Hbad.
Qed.

Lemma testzip_readable zf :
  Forall (fun f => is_Some (zipfile.payload f)) zf -> zipfile.testzip zf = None.
Proof.
  intros Hall. destruct (zipfile.testzip zf) as [name|] eqn:Htest; [|done].
  destruct (testzip_member zf) as (g & Hin & Hbad); [by rewrite Htest|].
  rewrite Forall_forall in Hall. destruct (Hall g Hin) as [b Hb]. congruence.
Qed.

Lemma files_loop_unreadable zf g : forall output file,
  g ∈ zf -> zipfile.payload g = None -> is_Raise (files_loop zf output file).
Proof.
  induction zf as [|f zf IH]; intros output file Hin Hbad; simpl in *.
  - by inversion Hin.
  - unfold zipfile.read. destruct (zipfile.payload f) as [b|] eqn:Hf; simpl.
    + destruct (zipfile.decode_u8 b) as [xml|e]; simpl; [|by eexists].
      destruct (records_loop _ _ output) as [out|e]; simpl; [|by eexists].
      apply IH; [|done]. apply elem_of_cons in Hin as [-> | Hin]; [congruence|done].
    + by eexists.
Qed.

Lemma extract_unreadable zf :
  is_Some (zipfile.testzip zf) -> is_Raise (extract zf).
Proof.
  intros H. destruct (testzip_member zf H) as (g & Hin & Hbad). unfold extract.
  destruct (files_loop_unreadable zf g [] None Hin Hbad) as [e ->]. by exists e.
Qed.

(** C7. Once the transport has answered, the archive is checked: an answer
    that is not an archive, or an archive with a member that cannot be read
    back, ends the run with an exception, after exactly one fetch and
    without backoff or retry; the exception is [SystemExit], after an error
    is logged, whenever the check reports the member. *)
Theorem invalid_archive_fatal_without_retry
    (target : string) (retry : bool) (w : World) (r : Response) :
  net (requests w) target = Some r ->
  (archive r = None
   \/ exists zf, archive r = Some zf /\ is_Some (zipfile.testzip zf)) ->
  exists e level,
    get_data target retry w = (Raise e, after w 1 [EvGet target; EvLog level])
    /\ ((archive r = None
         \/ exists zf bad, archive r = Some zf
              /\ zipfile.testzip zf = Some bad /\ bad <> EmptyString) ->
        e = SystemExit /\ level = ERROR)
    /\ forall bucket w0,
         get_latest_file false w0 = (Ok (Some target), w) ->
         target <> EmptyString -> retry = false ->
         put_first_firds_file_in_s3 bucket w0
         = (Raise e, after w 1 [EvGet target; EvLog level]).
Proof.
  intros Hnet Hbad.
  assert (exists e level,
    get_data target retry w = (Raise e, after w 1 [EvGet target; EvLog level])
    /\ ((archive r = None
         \/ exists zf bad, archive r = Some zf
              /\ zipfile.testzip zf = Some bad /\ bad <> EmptyString) ->
        e = SystemExit /\ level = ERROR)) as (e & level & Hget & Hexit).
  { destruct Hbad as [Hnone|(zf & Hzf & [bad Htest])].
    - exists SystemExit, ERROR. split; [|done].
      apply (get_data_invalid _ _ _ _ Hnet). by left.
    - destruct (from_option str_truthy false (zipfile.testzip zf)) eqn:Htruthy.
      + exists SystemExit, ERROR. split; [|done].
        apply (get_data_invalid _ _ _ _ Hnet). right. by exists zf.
      + destruct (extract_unreadable zf) as [e He]; [by rewrite Htest|].
        exists e, INFO. split.
        * rewrite (get_data_answered _ _ _ _ _ Hnet Hzf Htruthy). by rewrite He.
        * intros [Hnone|(zf' & bad' & Hzf' & Htest' & Hne)]; [congruence|].
          rewrite Hzf in Hzf'. injection Hzf' as <-.
          rewrite Htest' in Htruthy. simpl in Htruthy. by destruct bad'. }
  exists e, level. split_and!; [done|done|].
  intros bucket w0 Hsel Hne ->. by eapply put_first_extraction_raises.
Qed.

Lemma pop_snoc {A} (l : list A) (x : A) : pop (l ++ [x]) = Some (l, x).
Proof.
  induction l as [|y l IH]; simpl; [done|]. by rewrite IH.
Qed.

(** *** The projection of a record *)

Lemma project_items_found tree items : forall d,
  Forall (fun it => is_Some (ElementTree.find it.2 tree)) items ->
  exists row,
    project_items tree items d = Ok row
    /\ dom row = dom d ∪ list_to_set items.*1
    /\ (forall alias, alias ∉ items.*1 -> row !! alias = d !! alias)
    /\ (NoDup items.*1 ->
        forall alias element, (alias, element) ∈ items ->
          exists found, ElementTree.find element tree = Some found
                        /\ row !! alias = Some (ElementTree.text found)).
Proof.
  induction items as [|[alias element] items IH]; intros d Hall; simpl.
  - exists d. split_and!; [done| |done|].
    + simpl. by rewrite union_empty_r_L.
    + intros _ ?? H. by inversion H.
  - apply Forall_cons in Hall as [[found Hfound] Hall]. simpl in Hfound.
    rewrite Hfound. simpl.
    destruct (IH (<[alias:=ElementTree.text found]> d) Hall)
      as (row & Hrow & Hdom & Hother & Hval).
    exists row. split_and!; [done| | |].
    + rewrite Hdom, dom_insert_L. simpl.
      by rewrite (union_comm_L {[alias]} (dom d)), (assoc_L (∪)).
    + intros a Ha. apply not_elem_of_cons in Ha as [Hne Ha].
      rewrite Hother by done. by apply lookup_insert_ne.
    + intros Hnd a el Hin. apply NoDup_cons in Hnd as [Hfresh Hnd].
      apply elem_of_cons in Hin as [[= -> ->]|Hin].
      * exists found. split; [done|]. rewrite Hother by done.
        apply lookup_insert_eq.
      * by apply Hval.
Qed.

Lemma project_items_missing tree items : forall d,
  Exists (fun it => ElementTree.find it.2 tree = None) items ->
  project_items tree items d = Raise AttributeError.
Proof.
  induction items as [|[alias element] items IH]; intros d Hex; simpl.
  - by inversion Hex.
  - destruct (ElementTree.find element tree) as [found|] eqn:Hfound; simpl; [|done].
    apply IH. apply Exists_cons in Hex as [Hex|Hex]; [|done].
    simpl in Hex. congruence.
Qed.

(** C1 (as amended). For every record fragment in which each configured
    path leads to an element, the projection is a mapping whose key set is
    exactly the configured set of columns, each column holding the text of
    the first element on its path ([None] when that element has no text).
    A path that is not found in the fragment is not mapped to [None]: the
    projection raises [AttributeError]. *)
Theorem project_record_keys_or_failure (tree : Element) :
  (Forall (fun it => is_Some (ElementTree.find it.2 tree)) TARGET_ELEMENTS ->
   exists row,
     project_record tree = Ok row
     /\ dom row = list_to_set fieldnames
     /\ (NoDup fieldnames ->
         forall alias element, (alias, element) ∈ TARGET_ELEMENTS ->
           exists found, ElementTree.find element tree = Some found
                         /\ row !! alias = Some (ElementTree.text found)))
  /\ (Exists (fun it => ElementTree.find it.2 tree = None) TARGET_ELEMENTS ->
      project_record tree = Raise AttributeError).
Proof.
  split.
  - intros Hall. destruct (project_items_found tree _ ∅ Hall)
      as (row & Hrow & Hdom & _ & Hval).
    exists row. split_and!; [done| |done].
    by rewrite Hdom, dom_empty_L, union_empty_l_L.
  - apply project_items_missing.
Qed.

(** *** The loop over the fragments *)

Lemma records_loop_projectable records : forall output,
  Forall projectable records ->
  exists rows,
    records_loop (length records) records output = Ok (output ++ rows)
    /\ length rows = length records.
Proof.
  induction records as [|record records IH] using rev_ind; intros output Hall.
  - exists []. by rewrite app_nil_r.
  - apply Forall_app in Hall as [Hall Hrec].
    apply Forall_singleton in Hrec as (tree & Hparse & [row Hrow]).
    rewrite length_app, Nat.add_comm. simpl. rewrite pop_snoc, Hparse. simpl.
    rewrite Hrow. simpl.
    destruct (IH (output ++ [row]) Hall) as (rows & -> & Hlen).
    exists (row :: rows). rewrite <- app_assoc. simpl. by rewrite Hlen.
Qed.

Lemma records_loop_malformed_after before bad after_ : forall output,
  ET_parse bad = None ->
  Forall projectable after_ ->
  records_loop (length (before ++ bad :: after_)) (before ++ bad :: after_) output
  = Raise ParseError.
Proof.
  induction after_ as [|record after_ IH] using rev_ind; intros output Hbad Hall.
  - rewrite length_app, Nat.add_comm. simpl. by rewrite pop_snoc, Hbad.
  - apply Forall_app in Hall as [Hall Hrec].
    apply Forall_singleton in Hrec as (tree & Hparse & [row Hrow]).
    replace (before ++ bad :: after_ ++ [record])
      with ((before ++ bad :: after_) ++ [record]) by by rewrite <- app_assoc.
    rewrite (length_app _ [record]), Nat.add_comm. simpl.
    rewrite pop_snoc, Hparse. simpl. rewrite Hrow. simpl. by apply IH.
Qed.

Lemma records_loop_malformed records : forall output,
  Exists (fun record => ~ well_formed record) records ->
  is_Raise (records_loop (length records) records output).
Proof.
  induction records as [|record records IH] using rev_ind; intros output Hex.
  - by inversion Hex.
  - rewrite length_app, Nat.add_comm. simpl. rewrite pop_snoc.
    destruct (ET_parse record) as [tree|] eqn:Hparse; simpl; [|by eexists].
    destruct (project_record tree) as [row|e]; simpl; [|by eexists].
    apply IH. apply Exists_app in Hex as [Hex|Hex]; [done|].
    apply Exists_cons in Hex as [Hex|Hex]; [|by inversion Hex].
    destruct Hex. unfold well_formed. by rewrite Hparse.
Qed.

(** *** The loop over the members *)

Lemma files_loop_last zf : forall output file output' file',
  files_loop zf output file = Ok (output', file') ->
  file' = from_option Some file (last zf).
Proof.
  induction zf as [|f zf IH]; intros output file output' file' H; simpl in *.
  - by injection H as _ <-.
  - destruct (zipfile.read f) as [b|]; simpl in H; [|done].
    destruct (zipfile.decode_u8 b) as [xml|]; simpl in H; [|done].
    destruct (records_loop _ _ output) as [out|]; simpl in H; [|done].
    rewrite (IH _ _ _ _ H). rewrite last_cons. by destruct (last zf).
Qed.

Lemma files_loop_processable zf : forall output file,
  Forall processable zf ->
  exists output', files_loop zf output file
                  = Ok (output', from_option Some file (last zf)).
Proof.
  induction zf as [|f zf IH]; intros output file Hall; simpl.
  - by exists output.
  - apply Forall_cons in Hall as [(xml & Hpayload & Hrecords) Hall].
    unfold zipfile.read. rewrite Hpayload. simpl.
    destruct (records_loop_projectable _ output Hrecords) as (rows & -> & _).
    simpl. destruct (IH (output ++ rows) (Some f) Hall) as [output' ->].
    exists output'. rewrite last_cons. by destruct (last zf).
Qed.

(** C9. The result of the extraction carries the file name of the last
    member of the archive, in the order of its list of members, however
    many members there are: this is the name of every result, and a result
    there is when each member is read, decoded and projected without an
    exception. *)
Theorem extract_names_last_member (zf : zipfile.ZipFile) (f : zipfile.ZipInfo) :
  (forall output name,
     extract (zf ++ [f]) = Ok (output, name) -> name = zipfile.filename f)
  /\ (Forall processable (zf ++ [f]) ->
      exists output, extract (zf ++ [f]) = Ok (output, zipfile.filename f))
  /\ (forall target retry w r output name w',
        net (requests w) target = Some r ->
        archive r = Some (zf ++ [f]) ->
        get_data target retry w = (Ok (output, name), w') ->
        name = zipfile.filename f).
Proof.
  assert (Hname : forall output name,
    extract (zf ++ [f]) = Ok (output, name) -> name = zipfile.filename f).
  { intros output name. unfold extract.
    destruct (files_loop (zf ++ [f]) [] None) as [[out file]|] eqn:Hloop;
      simpl; [|done].
    apply files_loop_last in Hloop. rewrite last_snoc in Hloop. subst file.
    simpl. by intros [= _ <-]. }
  split_and!; [done| |].
  - intros Hall. unfold extract.
    destruct (files_loop_processable _ [] None Hall) as [output ->].
    rewrite last_snoc. simpl. by exists output.
  - intros target retry w r output name w' Hnet Hzf Hget.
    destruct (from_option str_truthy false (zipfile.testzip (zf ++ [f])))
      eqn:Htest.
    + rewrite (get_data_invalid _ _ _ _ Hnet) in Hget; [done|].
      right. by eexists.
    + rewrite (get_data_answered _ _ _ _ _ Hnet Hzf Htest) in Hget.
      injection Hget as Hget _. by eapply Hname.
Qed.

(** C2 (as amended). An archive entry whose K record fragments are all
    well formed, each with every configured path, yields exactly K
    mappings. A malformed fragment is not skipped: the extraction raises
    and returns no mapping at all; it raises [ParseError] when the
    fragments after the malformed one, which are processed before it, are
    projected without an exception. *)
Theorem extract_all_fragments_or_failure
    (file : zipfile.ZipInfo) (xml : string) :
  zipfile.payload file = Some (zipfile.Utf8 xml) ->
  (Forall projectable (re.findall_records xml) ->
   exists output,
     extract [file] = Ok (output, zipfile.filename file)
     /\ length output = length (re.findall_records xml))
  /\ (Exists (fun record => ~ well_formed record) (re.findall_records xml) ->
      is_Raise (extract [file]))
  /\ (forall before bad after_,
        re.findall_records xml = before ++ bad :: after_ ->
        ET_parse bad = None ->
        Forall projectable after_ ->
        extract [file] = Raise ParseError)
  /\ (forall target retry w r,
        net (requests w) target = Some r -> archive r = Some [file] ->
        get_data target retry w
        = (extract [file], after w 1 [EvGet target; EvLog INFO])).
Proof.
  intros Hpayload.
  assert (Hget : forall target retry w r,
    net (requests w) target = Some r -> archive r = Some [file] ->
    get_data target retry w
    = (extract [file], after w 1 [EvGet target; EvLog INFO])).
  { intros target retry w r Hnet Hzf.
    apply (get_data_answered _ _ _ _ _ Hnet Hzf).
    rewrite testzip_readable; [done|]. repeat constructor. by rewrite Hpayload. }
  split_and!; [| | |exact Hget];
    unfold extract; simpl; unfold zipfile.read; rewrite Hpayload; simpl.
  - intros Hall.
    destruct (records_loop_projectable _ [] Hall) as (rows & -> & Hlen).
    simpl. by exists rows.
  - intros Hex. destruct (records_loop_malformed _ [] Hex) as [e ->].
    by exists e.
  - intros before bad after_ -> Hbad Hall.
    by rewrite records_loop_malformed_after.
Qed.

(** *** Strings *)

Lemma append_cons c s t : String c s +:+ t = String c (s +:+ t).
Proof. reflexivity. Qed.

Lemma append_nil_r s : s +:+ EmptyString = s.
Proof. induction s as [|c s IH]; [done|]. by rewrite append_cons, IH. Qed.

Lemma append_assoc s t u : (s +:+ t) +:+ u = s +:+ (t +:+ u).
Proof. induction s as [|c s IH]; [done|]. by rewrite !append_cons, IH. Qed.

Lemma substring_all s : substring 0 (String.length s) s = s.
Proof. induction s as [|c s IH]; [done|]. simpl. by rewrite IH. Qed.

(** *** Reading back what the writer wrote *)

Import csv.

Lemma is_special_false c :
  is_special c = false ->
  Ascii.eqb c "," = false /\ Ascii.eqb c DQUOTE = false
  /\ Ascii.eqb c CR = false /\ Ascii.eqb c LF = false.
Proof.
  unfold is_special. intros H.
  repeat (apply orb_false_iff in H as [H ?]). done.
Qed.

Lemma read_plain u : forall p flds rest,
  any_char is_special u = false ->
  read (mkReader IN_FIELD p flds) true (u +:+ rest)
  = read (mkReader IN_FIELD (p +:+ u) flds) true rest.
Proof.
  induction u as [|c u IH]; intros p flds rest Hu.
  - by rewrite append_nil_r.
  - simpl in Hu. apply orb_false_iff in Hu as [Hc Hu].
    destruct (is_special_false c Hc) as (Hcomma & Hquote & Hcr & Hlf).
    rewrite append_cons. simpl. unfold process_char, is_newline. simpl.
    rewrite Hlf, Hcr, Hcomma. simpl.
    unfold parse_add_char. simpl. rewrite IH by done.
    by rewrite append_assoc.
Qed.

Lemma read_start_plain st c u flds ml rest :
  at_start st ->
  any_char is_special (String c u) = false ->
  read (mkReader st EmptyString flds) ml (String c u +:+ rest)
  = read (mkReader IN_FIELD (String c u) flds) true rest.
Proof.
  intros Hst Hu. simpl in Hu. apply orb_false_iff in Hu as [Hc Hu].
  destruct (is_special_false c Hc) as (Hcomma & Hquote & Hcr & Hlf).
  rewrite append_cons. simpl. unfold process_char, is_newline.
  destruct Hst as [-> | ->]; simpl; rewrite Hlf, Hcr, Hquote, Hcomma; simpl;
    unfold parse_add_char; simpl; by rewrite read_plain.
Qed.

Lemma read_quoted_body f : forall p flds ml rest,
  read (mkReader IN_QUOTED_FIELD p flds) ml
       (double_quotes f +:+ String DQUOTE rest)
  = read (mkReader QUOTE_IN_QUOTED_FIELD (p +:+ f) flds) true rest.
Proof.
  induction f as [|c f IH]; intros p flds ml rest.
  - by rewrite append_nil_r.
  - simpl. destruct (Ascii.eqb_spec c DQUOTE) as [-> | Hq].
    + rewrite !append_cons. simpl. unfold parse_add_char. simpl.
      rewrite IH. by rewrite append_assoc.
    + rewrite append_cons. simpl. unfold process_char. simpl.
      rewrite (proj2 (Ascii.eqb_neq _ _) Hq). simpl.
      unfold parse_add_char. simpl.
      destruct (Ascii.eqb c LF); simpl; unfold end_of_line, process_eol; simpl;
        rewrite IH; by rewrite append_assoc.
Qed.

Lemma read_start_quoted st f flds ml rest :
  at_start st ->
  read (mkReader st EmptyString flds) ml
       (String DQUOTE (double_quotes f +:+ String DQUOTE rest))
  = read (mkReader QUOTE_IN_QUOTED_FIELD f flds) true rest.
Proof.
  intros [-> | ->]; simpl; unfold set_state; simpl; by rewrite read_quoted_body.
Qed.

Lemma write_field_plain f :
  any_char is_special f = false -> write_field f = f.
Proof. unfold write_field. by intros ->. Qed.

Lemma write_field_quoted f :
  any_char is_special f = true ->
  write_field f = String DQUOTE (double_quotes f +:+ String DQUOTE EmptyString).
Proof. unfold write_field. by intros ->. Qed.

(** A field followed by the delimiter. *)
Lemma read_field_comma st f flds ml rest :
  at_start st ->
  read (mkReader st EmptyString flds) ml (write_field f +:+ String "," rest)
  = read (mkReader START_FIELD EmptyString (flds ++ [f])) true rest.
Proof.
  intros Hst. destruct (any_char is_special f) eqn:Hf.
  - rewrite (write_field_quoted _ Hf), append_cons, append_assoc, append_cons.
    rewrite read_start_quoted by done. done.
  - rewrite (write_field_plain _ Hf). destruct f as [|c f].
    + by destruct Hst as [-> | ->].
    + rewrite read_start_plain by done. done.
Qed.

(** A field followed by the line terminator. *)
Lemma read_field_crlf st f flds ml rest :
  at_start st ->
  st = START_FIELD \/ write_field f <> EmptyString ->
  read (mkReader st EmptyString flds) ml (write_field f +:+ CRLF +:+ rest)
  = cons (flds ++ [f]) <$> read parse_reset false rest.
Proof.
  intros Hst Hne. destruct (any_char is_special f) eqn:Hf.
  - rewrite (write_field_quoted _ Hf), append_cons, append_assoc, append_cons.
    rewrite read_start_quoted by done. done.
  - rewrite (write_field_plain _ Hf) in *. destruct f as [|c f].
    + destruct Hne as [-> | Hne]; done.
    + rewrite read_start_plain by done. done.
Qed.

Lemma read_fields fs : forall f flds ml rest,
  read (mkReader START_FIELD EmptyString flds) ml
       (join_fields (f :: fs) +:+ CRLF +:+ rest)
  = cons (flds ++ f :: fs) <$> read parse_reset false rest.
Proof.
  induction fs as [|f' fs IH]; intros f flds ml rest.
  - apply read_field_crlf; [by right | by left].
  - change (join_fields (f :: f' :: fs))
      with (write_field f +:+ String "," (join_fields (f' :: fs))).
    rewrite append_assoc, append_cons, read_field_comma by by right.
    rewrite IH. by rewrite <- app_assoc.
Qed.

Lemma write_field_empty f : write_field f = EmptyString -> f = EmptyString.
Proof.
  unfold write_field. destruct (any_char is_special f); [done|]. done.
Qed.

(** A record that the writer wrote is read back as its fields. *)
Lemma read_writerow row rest :
  read parse_reset false (writerow row +:+ rest)
  = cons (default EmptyString <$> row) <$> read parse_reset false rest.
Proof.
  unfold writerow. destruct row as [|x [|y row]].
  - done.
  - simpl. destruct (write_field (default EmptyString x)) eqn:Hw.
    + apply write_field_empty in Hw as ->. done.
    + rewrite <- Hw, append_assoc. unfold parse_reset.
      rewrite read_field_crlf; [done | by left | right; by rewrite Hw].
  - change (join_fields (default EmptyString <$> x :: y :: row))
      with (write_field (default EmptyString x)
            +:+ String "," (join_fields (default EmptyString <$> y :: row))).
    destruct (write_field (default EmptyString x)
              +:+ String "," (join_fields (default EmptyString <$> y :: row)))
      as [|c s] eqn:Hbody.
    { by destruct (write_field (default EmptyString x)). }
    rewrite <- Hbody, !append_assoc, append_cons. unfold parse_reset.
    rewrite read_field_comma by by left.
    rewrite fmap_cons. apply read_fields.
Qed.

Lemma reader_writerows rows :
  reader (writerows rows)
  = Some ((fun row : list (option string) => default EmptyString <$> row) <$> rows).
Proof.
  unfold reader. induction rows as [|row rows IH]; simpl; [done|].
  by rewrite read_writerow, IH.
Qed.

(** *** The serialization *)

Lemma DictWriter_writerow_over_columns row :
  over_columns row ->
  DictWriter_writerow fieldnames row = Ok (writerow (row_values row)).
Proof. intros H. unfold DictWriter_writerow. by rewrite decide_True. Qed.

Lemma DictWriter_writerow_cases row :
  DictWriter_writerow fieldnames row = Ok (writerow (row_values row))
  \/ DictWriter_writerow fieldnames row = Raise ValueError.
Proof. unfold DictWriter_writerow. case_decide; [by left | by right]. Qed.

Lemma header_lookup (names : list string) k :
  k ∈ names ->
  (list_to_map ((fun k => (k, Some k)) <$> names) : Row) !! k = Some (Some k).
Proof.
  induction names as [|k' names IH]; intros Hin; [by inversion Hin|].
  simpl. destruct (decide (k' = k)) as [-> | Hne].
  - apply lookup_insert_eq.
  - rewrite lookup_insert_ne by done. apply IH.
    apply elem_of_cons in Hin as [Heq|Hin]; [congruence|done].
Qed.

Lemma header_values (names all : list string) :
  names ⊆ all ->
  (fun k => default (Some EmptyString)
              ((list_to_map ((fun k => (k, Some k)) <$> all) : Row) !! k))
    <$> names
  = Some <$> names.
Proof.
  induction names as [|k names IH]; intros Hsub; [done|].
  rewrite !fmap_cons. rewrite IH by (intros x Hx; apply Hsub; by right).
  rewrite header_lookup by (apply Hsub; by left). done.
Qed.

Lemma DictWriter_writeheader_text :
  DictWriter_writeheader fieldnames = Ok (writerow (Some <$> fieldnames)).
Proof.
  unfold DictWriter_writeheader, DictWriter_writerow.
  rewrite decide_True.
  - by rewrite header_values.
  - rewrite dom_list_to_map_L, <- list_fmap_compose. simpl.
    by rewrite list_fmap_id.
Qed.

Lemma render_row_values row : default EmptyString <$> row_values row = render row.
Proof. unfold row_values, render. by rewrite <- list_fmap_compose. Qed.

Lemma read_back_records (rows : list Row) :
  (fun record : list (option string) => default EmptyString <$> record)
    <$> ((Some <$> fieldnames) :: (row_values <$> rows))
  = fieldnames :: (render <$> rows).
Proof.
  rewrite fmap_cons. f_equal.
  - induction fieldnames as [|k ks IH]; [done|]. rewrite !fmap_cons. by f_equal.
  - induction rows as [|row rows' IH]; [done|].
    rewrite !fmap_cons, render_row_values. by f_equal.
Qed.

(** The loop empties the list, whatever the rows are. *)
Lemma rows_loop_empties rows : forall outf w,
  exists outf' w', rows_loop (length rows) rows outf w = (Ok (outf', []), w').
Proof.
  induction rows as [|row rows IH] using rev_ind; intros outf w.
  - by exists outf, w.
  - rewrite length_app, Nat.add_comm. simpl. rewrite pop_snoc.
    destruct (DictWriter_writerow_cases row) as [-> | ->]; simpl.
    + apply IH.
    + unfold mbind, M_bind, logging, emit. simpl. apply IH.
Qed.

(** On rows over the columns, it writes them from the last to the first,
    and logs nothing. *)
Lemma rows_loop_writes rows : forall outf w,
  Forall over_columns rows ->
  exists outf',
    rows_loop (length rows) rows outf w = (Ok (outf', []), w)
    /\ getvalue outf' = getvalue outf +:+ writerows (row_values <$> rev rows).
Proof.
  induction rows as [|row rows IH] using rev_ind; intros outf w Hall.
  - exists outf. by rewrite append_nil_r.
  - apply Forall_app in Hall as [Hall Hrow]. rewrite Forall_singleton in Hrow.
    rewrite length_app, Nat.add_comm. simpl. rewrite pop_snoc.
    rewrite (DictWriter_writerow_over_columns _ Hrow).
    destruct (IH (StringIO_write outf (writerow (row_values row))) w Hall)
      as (outf' & -> & Hvalue).
    exists outf'. split; [done|]. rewrite Hvalue. simpl.
    rewrite rev_app_distr. simpl. by rewrite append_assoc.
Qed.

Lemma write_to_csv_text rows w :
  Forall over_columns rows ->
  exists outf,
    write_to_csv rows w = (Ok (outf, []), after w 0 [EvWriteCsv (length rows)])
    /\ tell outf = 0
    /\ getvalue outf
       = writerows ((Some <$> fieldnames) :: (row_values <$> rev rows)).
Proof.
  intros Hall. unfold write_to_csv, mbind, M_bind, emit, lift. simpl.
  rewrite DictWriter_writeheader_text.
  destruct (rows_loop_writes rows
              (StringIO_write (mkStringIO EmptyString 0)
                              (writerow (Some <$> fieldnames)))
              (mkWorld (requests w) (trace w ++ [EvWriteCsv (length rows)]))
              Hall) as (outf' & -> & Hvalue).
  eexists. split_and!; [done|done|]. simpl. by rewrite Hvalue.
Qed.

Lemma rev_lookup {A} (l : list A) i :
  i < length l -> rev l !! i = l !! (length l - 1 - i).
Proof.
  revert i. induction l as [|x l IH]; intros i Hi; simpl in *; [lia|].
  destruct (decide (i < length l)) as [Hlt|Hge].
  - rewrite lookup_app_l by by rewrite length_rev.
    rewrite IH by done.
    replace (length l - 0 - i) with (S (length l - 1 - i)) by lia. done.
  - rewrite lookup_app_r by (rewrite length_rev; lia).
    rewrite length_rev.
    replace (i - length l) with 0 by lia.
    replace (length l - 0 - i) with 0 by lia. done.
Qed.

Lemma StringIO_read_all outf : tell outf = 0 -> StringIO_read outf = getvalue outf.
Proof.
  unfold StringIO_read. intros ->. rewrite Nat.sub_0_r. apply substring_all.
Qed.

(** C6. For every sequence of field mappings over the configured columns,
    the text that [write_to_csv] returns is read back as the header
    followed by exactly one data row for each mapping, whose columns are
    the values of the mapping, [None] as the empty string; the data rows
    are the rows of the mappings up to their order. *)
Theorem write_to_csv_roundtrip (rows : list Row) (w : World) :
  Forall over_columns rows ->
  exists outf data,
    write_to_csv rows w = (Ok (outf, []), after w 0 [EvWriteCsv (length rows)])
    /\ csv.reader (StringIO_read outf) = Some (fieldnames :: data)
    /\ length data = length rows
    /\ Permutation data (render <$> rows).
Proof.
  intros Hall. destruct (write_to_csv_text rows w Hall) as (outf & Hrun & Htell & Htext).
  exists outf, (render <$> rev rows). split_and!; [done| | |].
  - rewrite (StringIO_read_all _ Htell), Htext, reader_writerows.
    by rewrite read_back_records.
  - by rewrite length_fmap, length_rev.
  - apply fmap_Permutation. symmetry. apply Permutation_rev.
Qed.

(** C10. [write_to_csv] consumes its argument from the end: when it
    returns, the list is empty, whatever it held; and for a list of [n]
    mappings over the configured columns the records written after the
    header are [n], the [i]-th of them being the record of the mapping at
    index [n-1-i] of the input, which is also what the [i]-th data row read
    back from the text is. *)
Theorem write_to_csv_consumes_in_reverse (rows : list Row) (w : World) :
  (exists outf w', write_to_csv rows w = (Ok (outf, []), w'))
  /\ (Forall over_columns rows ->
      exists outf written data,
        write_to_csv rows w
        = (Ok (outf, []), after w 0 [EvWriteCsv (length rows)])
        /\ getvalue outf = writerows ((Some <$> fieldnames) :: written)
        /\ csv.reader (getvalue outf) = Some (fieldnames :: data)
        /\ length written = length rows
        /\ length data = length rows
        /\ forall i, i < length rows ->
             written !! i = row_values <$> rows !! (length rows - 1 - i)
             /\ data !! i = render <$> rows !! (length rows - 1 - i)).
Proof.
  split.
  - unfold write_to_csv, mbind, M_bind, emit, lift. simpl.
    rewrite DictWriter_writeheader_text.
    edestruct (rows_loop_empties rows) as (outf' & w' & ->). by eexists _, _.
  - intros Hall.
    destruct (write_to_csv_text rows w Hall) as (outf & Hrun & Htell & Htext).
    exists outf, (row_values <$> rev rows), (render <$> rev rows).
    split_and!; [done|done| | | |].
    + rewrite Htext, reader_writerows. by rewrite read_back_records.
    + by rewrite length_fmap, length_rev.
    + by rewrite length_fmap, length_rev.
    + intros i Hi. by rewrite !list_lookup_fmap, rev_lookup.
Qed.

(** ** Further properties *)

(** *** The file name grammar *)

Lemma prefix_append p rest : String.prefix p (p +:+ rest) = true.
Proof.
  induction p as [|a p IH]; [by destruct rest|].
  rewrite append_cons. simpl. by destruct (Ascii.ascii_dec a a).
Qed.

Lemma prefix_true p : forall s,
  String.prefix p s = true -> exists rest, s = p +:+ rest.
Proof.
  induction p as [|a p IH]; intros s H.
  - by exists s.
  - destruct s as [|b s]; [done|]. simpl in H.
    destruct (Ascii.ascii_dec a b) as [-> | ?]; [|done].
    destruct (IH s H) as [rest ->]. by exists rest.
Qed.

Lemma removeprefix_Some p : forall s rest,
  removeprefix p s = Some rest <-> s = p +:+ rest.
Proof.
  induction p as [|a p IH]; intros s rest; simpl.
  - split; [by intros [= ->] | by intros ->].
  - destruct s as [|b s]; [by split|].
    destruct (Ascii.eqb_spec a b) as [-> | Hne].
    + rewrite IH, append_cons. split; [by intros -> | by intros [= ->]].
    + rewrite append_cons. split; [done | intros [= ? ?]; by subst].
Qed.

Lemma without_cons c a s :
  without c (String a s) <-> Ascii.eqb a c = false /\ without c s.
Proof.
  unfold without.
  change (any_char (Ascii.eqb c) (String a s))
    with (Ascii.eqb c a || any_char (Ascii.eqb c) s).
  by rewrite orb_false_iff, (Ascii.eqb_sym c a).
Qed.

Lemma lazy_then_dot_zip_unfold c s :
  re.lazy_then_dot_zip (String c s)
  = if String.prefix ".zip" (String c s) then true
    else if Ascii.eqb c LF then false else re.lazy_then_dot_zip s.
Proof. reflexivity. Qed.

Lemma lazy_then_dot_zip_intro mid tail :
  without LF mid -> re.lazy_then_dot_zip (mid +:+ ".zip" +:+ tail) = true.
Proof.
  induction mid as [|c mid IH]; intros Hmid.
  - change (EmptyString +:+ ".zip" +:+ tail) with (String "." ("zip" +:+ tail)).
    rewrite lazy_then_dot_zip_unfold.
    change (String "." ("zip" +:+ tail)) with (".zip" +:+ tail).
    by rewrite prefix_append.
  - apply without_cons in Hmid as [Hc Hmid].
    rewrite append_cons, lazy_then_dot_zip_unfold.
    destruct (String.prefix ".zip" _); [done|].
    rewrite Hc. by apply IH.
Qed.

Lemma lazy_then_dot_zip_elim s :
  re.lazy_then_dot_zip s = true ->
  exists mid tail, s = mid +:+ ".zip" +:+ tail /\ without LF mid.
Proof.
  induction s as [|c s IH]; [done|].
  rewrite lazy_then_dot_zip_unfold.
  destruct (String.prefix ".zip" (String c s)) eqn:Hpre.
  - intros _. destruct (prefix_true _ _ Hpre) as [tail ->].
    by exists EmptyString, tail.
  - destruct (Ascii.eqb_spec c LF) as [-> | Hne]; [done|].
    intros H. destruct (IH H) as (mid & tail & -> & Hmid).
    exists (String c mid), tail. split; [done|].
    apply without_cons. split; [by apply Ascii.eqb_neq | done].
Qed.

Lemma group1_unfold c s :
  re.group1_then_rest (String c s)
  = if Ascii.eqb c "_" && re.lazy_then_dot_zip s then Some EmptyString
    else if Ascii.eqb c LF then None
         else String c <$> re.group1_then_rest s.
Proof. reflexivity. Qed.

(** Once [.zip] cannot follow on the line, no later underscore helps. *)
Lemma group1_needs_dot_zip s :
  re.lazy_then_dot_zip s = false -> re.group1_then_rest s = None.
Proof.
  induction s as [|c s IH]; [done|].
  rewrite lazy_then_dot_zip_unfold, group1_unfold.
  destruct (String.prefix ".zip" (String c s)); [done|].
  destruct (Ascii.eqb c LF) eqn:Hlf.
  - intros _. destruct (Ascii.eqb c "_") eqn:Hu; [|done].
    apply Ascii.eqb_eq in Hlf as ->. vm_compute in Hu. discriminate.
  - intros H. rewrite H, andb_false_r, (IH H). done.
Qed.

Lemma group1_elim s : forall g,
  re.group1_then_rest s = Some g ->
  exists rest, s = g +:+ String "_" rest
               /\ re.lazy_then_dot_zip rest = true
               /\ without "_" g /\ without LF g.
Proof.
  induction s as [|c s IH]; intros g; [done|].
  rewrite group1_unfold.
  destruct (Ascii.eqb c "_") eqn:Hu; simpl.
  - apply Ascii.eqb_eq in Hu as ->.
    destruct (re.lazy_then_dot_zip s) eqn:Hzip.
    + intros [= <-]. by exists s.
    + by rewrite (group1_needs_dot_zip _ Hzip).
  - destruct (Ascii.eqb c LF) eqn:Hlf; [done|].
    destruct (re.group1_then_rest s) as [g'|] eqn:Hg; [|done].
    intros [= <-]. destruct (IH g' eq_refl) as (rest & -> & Hzip & Hno & Hnolf).
    exists rest. split_and!; [done|done| |]; by apply without_cons.
Qed.

Lemma group1_intro g : forall rest,
  without "_" g -> without LF g -> re.lazy_then_dot_zip rest = true ->
  re.group1_then_rest (g +:+ String "_" rest) = Some g.
Proof.
  induction g as [|c g IH]; intros rest Hno Hnolf Hzip.
  - change (EmptyString +:+ String "_" rest) with (String "_" rest).
    by rewrite group1_unfold, Hzip.
  - apply without_cons in Hno as [Hc Hno].
    apply without_cons in Hnolf as [Hclf Hnolf].
    rewrite append_cons, group1_unfold, Hc, Hclf. simpl.
    by rewrite IH.
Qed.

(** X1. The pattern [DLTINS_(.*?)_.*?\.zip] matches a file name exactly when
    the name is [DLTINS_], a date token without underscore or line feed, an
    underscore, and a rest that reaches [.zip] on the same line; group 1 is
    then that token, the text up to the first underscore after the prefix. *)
Theorem match_file_date_grammar (s g : string) :
  re.match_file_date s = Some g
  <-> exists mid tail,
        s = "DLTINS_" +:+ g +:+ String "_" (mid +:+ ".zip" +:+ tail)
        /\ without "_" g /\ without LF g /\ without LF mid.
Proof.
  unfold re.match_file_date. split.
  - destruct (removeprefix "DLTINS_" s) as [s'|] eqn:Hpre; [|done]. simpl.
    apply removeprefix_Some in Hpre as ->. intros Hg.
    destruct (group1_elim _ _ Hg) as (rest & -> & Hzip & Hno & Hnolf).
    destruct (lazy_then_dot_zip_elim _ Hzip) as (mid & tail & -> & Hmid).
    by exists mid, tail.
  - intros (mid & tail & -> & Hno & Hnolf & Hmid).
    rewrite (proj2 (removeprefix_Some _ _ _) eq_refl). simpl.
    apply group1_intro; [done|done|]. by apply lazy_then_dot_zip_intro.
Qed.

(** *** The fragments of a text *)

Lemma lazy_then_close_unfold c s :
  re.lazy_then_close (String c s)
  = if String.prefix "</FinInstrm>" (String c s) then Some "</FinInstrm>"
    else if Ascii.eqb c LF then None else String c <$> re.lazy_then_close s.
Proof. reflexivity. Qed.

Lemma lazy_then_close_elim s : forall m,
  re.lazy_then_close s = Some m ->
  exists body rest,
    m = body +:+ "</FinInstrm>" /\ s = m +:+ rest /\ without LF body.
Proof.
  induction s as [|c s IH]; intros m; [done|].
  rewrite lazy_then_close_unfold.
  destruct (String.prefix "</FinInstrm>" (String c s)) eqn:Hpre.
  - intros [= <-]. destruct (prefix_true _ _ Hpre) as [rest Hrest].
    by exists EmptyString, rest.
  - destruct (Ascii.eqb c LF) eqn:Hlf; [done|].
    destruct (re.lazy_then_close s) as [m'|] eqn:Hm; [|done].
    intros [= <-]. destruct (IH m' eq_refl) as (body & rest & -> & Hs & Hbody).
    exists (String c body), rest. split_and!; [done| |by apply without_cons].
    rewrite !append_cons. by f_equal.
Qed.

Lemma match_record_elim s m :
  re.match_record s = Some m ->
  exists body rest,
    m = "<FinInstrm>" +:+ body +:+ "</FinInstrm>"
    /\ s = m +:+ rest /\ without LF body.
Proof.
  unfold re.match_record.
  destruct (removeprefix "<FinInstrm>" s) as [s'|] eqn:Hpre; [|done]. simpl.
  apply removeprefix_Some in Hpre as ->.
  destruct (re.lazy_then_close s') as [m'|] eqn:Hm; [|done].
  intros [= <-]. destruct (lazy_then_close_elim _ _ Hm) as (body & rest & -> & -> & Hbody).
  exists body, rest. split_and!; [done| |done]. by rewrite !append_assoc.
Qed.

Lemma findall_scan_elim s : forall skip,
  Forall (fun m =>
            exists body before rest,
              m = "<FinInstrm>" +:+ body +:+ "</FinInstrm>"
              /\ s = before +:+ m +:+ rest /\ without LF body)
         (re.findall_scan skip s).
Proof.
  induction s as [|c s IH]; intros skip; [constructor|].
  assert (Hlater : forall k,
    Forall (fun m =>
              exists body before rest,
                m = "<FinInstrm>" +:+ body +:+ "</FinInstrm>"
                /\ String c s = before +:+ m +:+ rest /\ without LF body)
           (re.findall_scan k s)).
  { intros k. eapply Forall_impl; [apply (IH k)|].
    intros m (body & before & rest & -> & -> & Hbody).
    by exists body, (String c before), rest. }
  simpl. destruct skip as [|k]; [|apply Hlater].
  destruct (re.match_record (String c s)) as [m|] eqn:Hm; [|apply Hlater].
  constructor; [|apply Hlater].
  destruct (match_record_elim _ _ Hm) as (body & rest & -> & Hs & Hbody).
  by exists body, EmptyString, rest.
Qed.

(** X2. Every fragment that [get_data] hands to the parser is a piece of the
    text of the member that starts with [<FinInstrm>], ends with
    [</FinInstrm>] and has no line feed in between: a record that is split
    over two lines is never found. *)
Theorem findall_records_delimited (xml : string) :
  Forall (fun m =>
            exists body before rest,
              m = "<FinInstrm>" +:+ body +:+ "</FinInstrm>"
              /\ xml = before +:+ m +:+ rest /\ without LF body)
         (re.findall_records xml).
Proof. apply findall_scan_elim. Qed.

(** *** The entries of the feed *)

Lemma fold_insert_last {A} (k : A -> option string) (v : A -> option string)
    (key : option string) (l : list A) :
  forall d : gmap (option string) (option string),
    List.fold_left (fun d x => <[k x := v x]> d) l d !! key
    = match last (List.filter (fun x => bool_decide (k x = key)) l) with
      | Some x => Some (v x)
      | None => d !! key
      end.
Proof.
  induction l as [|x l IH]; intros d; simpl; [done|].
  rewrite IH. case_bool_decide as Hk.
  - rewrite last_cons.
    destruct (last (List.filter _ l)); [done|]. rewrite <- Hk.
    apply lookup_insert_eq.
  - destruct (last (List.filter _ l)); [done|]. by apply lookup_insert_ne.
Qed.

(** X3. The dictionary built for an entry maps a key to the text of the last
    [str] element of the entry that carries the key as its [name]; a key that
    no [str] element carries is absent. *)
Theorem file_info_last_wins (doc : Element) (key : option string) :
  file_info_of doc !! key = ElementTree.text <$> last (named key doc).
Proof.
  unfold file_info_of, named. rewrite fold_insert_last.
  destruct (last _); [done|]. apply lookup_empty.
Qed.

Lemma entry_of_date_link doc :
  entry_of doc = d ← date_of doc; l ← link_of doc; Some (d, l).
Proof.
  unfold entry_of, date_of, link_of.
  destruct (file_info_of doc !! Some "file_name") as [[file_name|]|]; simpl; try done.
  destruct (re.match_file_date file_name) as [g|]; simpl; [|done].
  by destruct (py_int g).
Qed.

Lemma latest_loop_cons acc doc docs :
  latest_loop acc (doc :: docs)
  = acc' ← latest_step acc doc; latest_loop acc' docs.
Proof. reflexivity. Qed.

(** What an iteration that does not raise has done. *)
Lemma latest_step_ok min_date target doc acc' :
  latest_step (min_date, target) doc = Ok acc' ->
  exists d, date_of doc = Some d
    /\ if lt_min_date d min_date
       then exists l, link_of doc = Some l /\ acc' = (Some d, l)
       else acc' = (min_date, target).
Proof.
  unfold latest_step, date_of, link_of.
  destruct (file_info_of doc !! Some "file_name") as [[file_name|]|]; simpl; try done.
  destruct (re.match_file_date file_name) as [g|]; simpl; [|done].
  destruct (py_int g) as [d|]; simpl; [|done].
  intros H. exists d. split; [done|].
  destruct (lt_min_date d min_date).
  - destruct (file_info_of doc !! Some "download_link") as [l|]; simpl in H; [|done].
    injection H as <-. by exists l.
  - by injection H as <-.
Qed.

Lemma latest_loop_ok docs : forall min_date target min_date' target',
  latest_loop (min_date, target) docs = Ok (min_date', target') ->
  Forall (fun doc => is_Some (date_of doc)) docs
  /\ ((min_date' = min_date /\ target' = target
       /\ forall j doc d, docs !! j = Some doc -> date_of doc = Some d ->
            lt_min_date d min_date = false)
      \/ exists i doc d,
           docs !! i = Some doc /\ date_of doc = Some d
           /\ link_of doc = Some target' /\ min_date' = Some d
           /\ lt_min_date d min_date = true
           /\ forall j doc' d', docs !! j = Some doc' -> date_of doc' = Some d' ->
                (d <= d')%Z /\ (j < i -> (d < d')%Z)).
Proof.
  induction docs as [|doc docs IH]; intros min_date target min_date' target' H.
  - injection H as <- <-. split; [constructor|]. left. split_and!; [done|done|].
    intros j doc d. by rewrite lookup_nil.
  - rewrite latest_loop_cons in H.
    destruct (latest_step (min_date, target) doc) as [[m t]|] eqn:Hstep;
      simpl in H; [|done].
    destruct (latest_step_ok _ _ _ _ Hstep) as (d & Hd & Hcase).
    destruct (IH _ _ _ _ H) as [Hdated Hrest].
    split; [constructor; [by rewrite Hd | done]|].
    destruct (lt_min_date d min_date) eqn:Hlt.
    + destruct Hcase as (l & Hl & [= -> ->]). right.
      destruct Hrest as [(-> & -> & Hall)|(i & doc' & d' & Hi & Hd' & Hl' & -> & Hlt' & Hmin)].
      * exists 0, doc, d. split_and!; [done|done|done|done|done|].
        intros [|j] doc' d' Hj Hd'; simpl in Hj.
        -- injection Hj as <-. rewrite Hd in Hd'. injection Hd' as <-. lia.
        -- specialize (Hall _ _ _ Hj Hd'). simpl in Hall.
           apply Z.ltb_ge in Hall. lia.
      * simpl in Hlt'. apply Z.ltb_lt in Hlt'.
        exists (S i), doc', d'. split_and!; [done|done|done|done| |].
        -- destruct min_date as [m|]; [|done]. simpl in *.
           apply Z.ltb_lt in Hlt. apply Z.ltb_lt. lia.
        -- intros [|j] doc'' d'' Hj Hd''; simpl in Hj.
           ++ injection Hj as <-. rewrite Hd in Hd''. injection Hd'' as <-. lia.
           ++ destruct (Hmin _ _ _ Hj Hd'') as [Hle Hbefore].
              split; [done|]. intros ?. apply Hbefore. lia.
    + injection Hcase as -> ->.
      destruct min_date as [m|]; [|done]. simpl in Hlt. apply Z.ltb_ge in Hlt.
      destruct Hrest as [(-> & -> & Hall)|(i & doc' & d' & Hi & Hd' & Hl' & -> & Hlt' & Hmin)].
      * left. split_and!; [done|done|].
        intros [|j] doc' d' Hj Hd'; simpl in Hj.
        -- injection Hj as <-. rewrite Hd in Hd'. injection Hd' as <-.
           simpl. by apply Z.ltb_ge.
        -- by eapply Hall.
      * right. simpl in Hlt'. pose proof (proj1 (Z.ltb_lt _ _) Hlt') as Hlt''.
        exists (S i), doc', d'. split_and!; [done|done|done|done|done|].
        intros [|j] doc'' d'' Hj Hd''; simpl in Hj.
        -- injection Hj as <-. rewrite Hd in Hd''. injection Hd'' as <-. lia.
        -- destruct (Hmin _ _ _ Hj Hd'') as [Hle Hbefore].
           split; [done|]. intros ?. apply Hbefore. lia.
Qed.

(** X4. Whenever the selection returns, every entry of the document has a
    file name in the grammar with an integer date; the result is [None] for
    a document without entries, and otherwise the [download_link] of the
    first entry of minimal date, whether or not the other entries have a
    [download_link]. *)
Theorem select_latest_returns (r_text : string) (target : option string) :
  select_latest r_text = Ok target ->
  exists tree,
    ET_parse r_text = Some tree
    /\ Forall (fun doc => is_Some (date_of doc)) (docs_of tree)
    /\ (docs_of tree = [] -> target = None)
    /\ (docs_of tree <> [] ->
        exists i doc d,
          docs_of tree !! i = Some doc /\ date_of doc = Some d
          /\ link_of doc = Some target
          /\ forall j doc' d', docs_of tree !! j = Some doc' ->
               date_of doc' = Some d' ->
               (d <= d')%Z /\ (j < i -> (d < d')%Z)).
Proof.
  unfold select_latest. destruct (ET_parse r_text) as [tree|]; [|done]. simpl.
  fold (docs_of tree).
  destruct (latest_loop (None, None) (docs_of tree)) as [[m t]|] eqn:Hloop;
    simpl; [|done].
  intros [= ->]. exists tree.
  destruct (latest_loop_ok _ _ _ _ _ Hloop) as [Hdated Hcase].
  split_and!; [done|done| |].
  - intros Hnil. rewrite Hnil in Hloop. simpl in Hloop. by injection Hloop as _ <-.
  - intros Hne.
    destruct Hcase as [(_ & _ & Hall)|(i & doc & d & Hi & Hd & Hl & _ & _ & Hmin)].
    + destruct (docs_of tree) as [|doc docs] eqn:Hdocs; [done|].
      apply Forall_cons in Hdated as [[d Hd] _].
      by specialize (Hall 0 doc d eq_refl Hd).
    + by exists i, doc, d.
Qed.

Lemma bind_Ok {A B} (a : A) (f : A -> Result B) : (Ok a ≫= f) = f a.
Proof. reflexivity. Qed.

Lemma latest_step_passed_over min_date target doc d :
  date_of doc = Some d -> lt_min_date d min_date = false ->
  latest_step (min_date, target) doc = Ok (min_date, target).
Proof.
  unfold latest_step, date_of.
  destruct (file_info_of doc !! Some "file_name") as [[file_name|]|]; simpl; try done.
  destruct (re.match_file_date file_name) as [g|]; simpl; [|done].
  destruct (py_int g) as [d'|]; simpl; [|done].
  by intros [= ->] ->.
Qed.

Lemma latest_step_no_link min_date target doc d :
  date_of doc = Some d -> link_of doc = None -> lt_min_date d min_date = true ->
  latest_step (min_date, target) doc = Raise KeyError.
Proof.
  unfold latest_step, date_of, link_of.
  destruct (file_info_of doc !! Some "file_name") as [[file_name|]|]; simpl; try done.
  destruct (re.match_file_date file_name) as [g|]; simpl; [|done].
  destruct (py_int g) as [d'|]; simpl; [|done].
  by intros [= ->] -> ->.
Qed.

(** After valid entries, the loop holds the least of their dates. *)
Lemma latest_loop_valid_min docs :
  Forall (fun doc => is_Some (entry_of doc)) docs ->
  exists min_date target,
    latest_loop (None, None) docs = Ok (min_date, target)
    /\ (forall d, lt_min_date d min_date = true <->
          forall doc' d', doc' ∈ docs -> date_of doc' = Some d' -> (d < d')%Z).
Proof.
  intros Hvalid. destruct (Forall_entries _ Hvalid) as [es Hes].
  rewrite (latest_loop_entries _ _ _ Hes).
  assert (Hdate : forall j doc' e', docs !! j = Some doc' -> es !! j = Some e' ->
                    date_of doc' = Some e'.1).
  { intros j doc' e' Hj He'.
    destruct (Forall2_lookup_l _ _ _ _ _ Hes Hj) as (e & He & Hentry).
    rewrite He' in He. injection He as <-.
    rewrite entry_of_date_link in Hentry.
    destruct (date_of doc') as [d|]; [|done]. simpl in Hentry.
    destruct (link_of doc'); [|done]. by injection Hentry as <-. }
  destruct es as [|e es].
  - inversion Hes; subst. exists None, None. split; [done|].
    intros d. split; [|done]. intros _ doc' d' Hin. by inversion Hin.
  - destruct (fold_pick_first_min e es) as (i & e0 & Hi & -> & Hmin).
    exists (Some e0.1), e0.2. split; [done|]. intros d. simpl. rewrite Z.ltb_lt.
    split.
    + intros Hlt doc' d' Hin Hd'.
      apply list_elem_of_lookup in Hin as [j Hj].
      destruct (Forall2_lookup_l _ _ _ _ _ Hes Hj) as (e' & He' & _).
      rewrite (Hdate _ _ _ Hj He') in Hd'. injection Hd' as <-.
      destruct (Hmin _ _ He'). lia.
    + intros Hall.
      destruct (Forall2_lookup_r _ _ _ _ _ Hes Hi) as (doc0 & Hdoc0 & _).
      apply (Hall doc0); [by eapply list_elem_of_lookup_2 | by eapply Hdate].
Qed.

(** X5. After valid entries, the first entry that is not valid decides the
    exception of the selection: [KeyError] without [file_name], [TypeError]
    for a [file_name] without text, [ValueError] for a date token that is no
    integer, [KeyError] without [download_link] when its date is below every
    date before it. An entry without [download_link] whose date is not below
    every date before it is passed over: the loop runs as if it were absent. *)
Theorem select_latest_first_bad_entry
    (r_text : string) (tree : Element) (before after_ : list Element) (doc : Element) :
  ET_parse r_text = Some tree ->
  docs_of tree = before ++ doc :: after_ ->
  Forall (fun d => is_Some (entry_of d)) before ->
  (file_info_of doc !! Some "file_name" = None ->
   select_latest r_text = Raise KeyError)
  /\ (file_info_of doc !! Some "file_name" = Some None ->
      select_latest r_text = Raise TypeError)
  /\ (forall file_name group1,
        file_info_of doc !! Some "file_name" = Some (Some file_name) ->
        re.match_file_date file_name = Some group1 -> py_int group1 = None ->
        select_latest r_text = Raise ValueError)
  /\ (forall d,
        date_of doc = Some d -> link_of doc = None ->
        (forall doc' d', doc' ∈ before -> date_of doc' = Some d' -> (d < d')%Z) ->
        select_latest r_text = Raise KeyError)
  /\ (forall d doc' d',
        date_of doc = Some d ->
        doc' ∈ before -> date_of doc' = Some d' -> (d' <= d)%Z ->
        latest_loop (None, None) (before ++ doc :: after_)
        = latest_loop (None, None) (before ++ after_)).
Proof.
  intros Hparse Hdocs Hvalid.
  destruct (latest_loop_valid_min _ Hvalid) as (m & t & Hloop & Hmin).
  assert (Hsel : forall e, latest_step (m, t) doc = Raise e ->
                           select_latest r_text = Raise e).
  { intros e He. unfold select_latest. rewrite Hparse. simpl. fold (docs_of tree).
    rewrite Hdocs, latest_loop_app, Hloop, bind_Ok, latest_loop_cons.
    by rewrite He. }
  split_and!.
  - intros Hname. apply Hsel. unfold latest_step. by rewrite Hname.
  - intros Hname. apply Hsel. unfold latest_step. by rewrite Hname.
  - intros file_name group1 Hname Hmatch Hint. apply Hsel. unfold latest_step.
    rewrite Hname. simpl. rewrite Hmatch. simpl. by rewrite Hint.
  - intros d Hd Hl Hall. apply Hsel. apply (latest_step_no_link _ _ _ d); [done|done|].
    by apply Hmin.
  - intros d doc' d' Hd Hin Hd' Hle.
    rewrite !latest_loop_app, Hloop, !bind_Ok, latest_loop_cons.
    rewrite (latest_step_passed_over _ _ _ d); [done|done|].
    destruct (lt_min_date d m) eqn:Hlt; [|done].
    pose proof (proj1 (Hmin d) Hlt doc' d' Hin Hd'). lia.
Qed.

(** X6. An exception of the selection is not a transport failure: it leaves
    [get_latest_file] and the run after a single fetch, without backoff or
    retry, and the script logs it and ends normally. *)
Theorem selection_exception_is_fatal
    (retry : bool) (bucket prog : string) (w : World) (r : Response) (e : Exn) :
  net (requests w) URL = Some r ->
  select_latest (text r) = Raise e ->
  get_latest_file retry w = (Raise e, after w 1 [EvGet URL])
  /\ put_first_firds_file_in_s3 bucket w = (Raise e, after w 1 [EvGet URL])
  /\ main [prog; bucket] w
     = (Ok tt, after w 1 [EvLog INFO; EvGet URL; EvLog ERROR]).
Proof.
  intros Hnet Hsel.
  assert (Hget : forall retry' w', requests w' = requests w ->
            get_latest_file retry' w' = (Raise e, after w' 1 [EvGet URL])).
  { intros retry' w' Hw'. erewrite get_latest_file_answered by (by rewrite Hw').
    by rewrite Hsel. }
  split_and!.
  - by apply Hget.
  - apply put_first_selection_raises. by apply Hget.
  - unfold main, try_except, mbind, M_bind, logging, emit. simpl.
    erewrite put_first_selection_raises by (by apply Hget).
    unfold after. simpl. by rewrite <- !app_assoc.
Qed.

(** *** A retry that is answered *)

(** X7. When the first fetch fails and the retry is answered, the result is
    the one of a first answer: the selection made in the feed, or the
    extraction made in the archive, two fetches and one backoff of ten
    seconds later. *)
Theorem retry_answered_like_first_answer :
  (forall w r,
     net (requests w) URL = None -> net (S (requests w)) URL = Some r ->
     get_latest_file false w
     = (select_latest (text r),
        after w 2 [EvGet URL; EvLog WARNING; EvSleep 10; EvGet URL]))
  /\ (forall target w r zf,
        net (requests w) target = None -> net (S (requests w)) target = Some r ->
        archive r = Some zf -> zipfile.testzip zf = None ->
        get_data target false w
        = (extract zf,
           after w 2 [EvGet target; EvLog WARNING; EvSleep 10; EvGet target;
                      EvLog INFO])).
Proof.
  split.
  - intros w r Hfail Hnet. rewrite (get_latest_file_retries _ Hfail).
    erewrite get_latest_file_answered by exact Hnet. by rewrite after_after.
  - intros target w r zf Hfail Hnet Hzf Htest.
    rewrite (get_data_retries _ _ Hfail).
    erewrite get_data_answered; [by rewrite after_after|exact Hnet|exact Hzf|].
    by rewrite Htest.
Qed.

(** *** What the extraction returns *)

Lemma record_row_projectable record :
  projectable record <-> is_Some (record_row record).
Proof.
  unfold projectable, record_row. split.
  - intros (tree & -> & [row Hrow]). simpl. rewrite Hrow. by eexists.
  - intros [row Hrow]. destruct (ET_parse record) as [tree|]; [|done].
    simpl in Hrow. exists tree. split; [done|].
    destruct (project_record tree) as [row'|]; [by eexists|done].
Qed.

Lemma records_loop_ok records : forall output output',
  records_loop (length records) records output = Ok output' ->
  output' = output ++ rev (omap record_row records)
  /\ Forall projectable records.
Proof.
  induction records as [|record records IH] using rev_ind; intros output output'.
  - simpl. intros [= <-]. by rewrite app_nil_r.
  - rewrite length_app, Nat.add_comm. simpl. rewrite pop_snoc.
    destruct (ET_parse record) as [tree|] eqn:Hparse; simpl; [|done].
    destruct (project_record tree) as [row|] eqn:Hrow; simpl; [|done].
    intros H. destruct (IH _ _ H) as [-> Hall].
    assert (Hrr : record_row record = Some row).
    { unfold record_row. rewrite Hparse. simpl. by rewrite Hrow. }
    split.
    + rewrite omap_app. simpl. rewrite Hrr. simpl.
      rewrite rev_app_distr. simpl. by rewrite <- app_assoc.
    + apply Forall_app. split; [done|]. constructor; [|constructor].
      apply record_row_projectable. by rewrite Hrr.
Qed.

Lemma processable_member_records f :
  processable f ->
  exists xml, zipfile.payload f = Some (zipfile.Utf8 xml)
              /\ member_records f = re.findall_records xml.
Proof.
  intros (xml & Hpayload & _). exists xml. split; [done|].
  unfold member_records. by rewrite Hpayload.
Qed.

Lemma files_loop_ok zf : forall output file output' file',
  files_loop zf output file = Ok (output', file') ->
  output' = output ++ rows_as_extracted zf /\ Forall processable zf.
Proof.
  induction zf as [|f zf IH]; intros output file output' file' H; simpl in H.
  - injection H as <- _. by rewrite app_nil_r.
  - unfold zipfile.read in H.
    destruct (zipfile.payload f) as [[xml|]|] eqn:Hpayload; simpl in H; try done.
    destruct (records_loop _ _ output) as [out|] eqn:Hloop; simpl in H; [|done].
    destruct (records_loop_ok _ _ _ Hloop) as [-> Hall].
    destruct (IH _ _ _ _ H) as [-> Hzf]. split.
    + assert (Hm : member_records f = re.findall_records xml)
        by (unfold member_records; by rewrite Hpayload).
      unfold rows_as_extracted. by rewrite bind_cons, <- app_assoc, Hm.
    + constructor; [|done]. by exists xml.
Qed.

(** When the extraction returns, and what. *)
Lemma extract_ok_iff (zf : zipfile.ZipFile) (output : list Row) (name : string) :
  extract zf = Ok (output, name)
  <-> exists zf' f,
        zf = zf' ++ [f] /\ Forall processable zf
        /\ output = rows_as_extracted zf /\ name = zipfile.filename f.
Proof.
  unfold extract. split.
  - destruct (files_loop zf [] None) as [[out file]|] eqn:Hloop; simpl; [|done].
    destruct (files_loop_ok _ _ _ _ _ Hloop) as [-> Hall].
    apply files_loop_last in Hloop.
    destruct file as [f|]; simpl; [|done]. intros [= <- <-].
    destruct (last zf) as [g|] eqn:Hlast; simpl in Hloop; [|done].
    injection Hloop as ->. apply last_Some in Hlast as [zf' ->].
    by exists zf', g.
  - intros (zf' & f & -> & Hall & -> & ->).
    destruct (files_loop_processable _ [] None Hall) as [out Hloop].
    rewrite Hloop. rewrite last_snoc. simpl.
    by destruct (files_loop_ok _ _ _ _ _ Hloop) as [-> _].
Qed.

(** X8. The extraction returns exactly when the archive has a member and
    every member is read, decoded and made of fragments that parse with every
    configured path; it then returns the rows member after member, the
    fragments of each member from the last to the first, and the file name of
    the last member. *)
Theorem extract_returns (zf : zipfile.ZipFile) (output : list Row) (name : string) :
  extract zf = Ok (output, name)
  <-> exists zf' f,
        zf = zf' ++ [f] /\ Forall processable zf
        /\ output = rows_as_extracted zf /\ name = zipfile.filename f.
Proof. exact (extract_ok_iff zf output name). Qed.

Lemma project_items_dom tree items : forall d row,
  project_items tree items d = Ok row ->
  dom row = dom d ∪ list_to_set items.*1.
Proof.
  induction items as [|[alias element] items IH]; intros d row; simpl.
  - intros [= <-]. by rewrite union_empty_r_L.
  - destruct (ElementTree.find element tree) as [found|]; simpl; [|done].
    intros H. rewrite (IH _ _ H), dom_insert_L.
    by rewrite (union_comm_L {[alias]} (dom d)), (assoc_L (∪)).
Qed.

Lemma record_row_dom record row :
  record_row record = Some row -> dom row = list_to_set fieldnames.
Proof.
  unfold record_row. destruct (ET_parse record) as [tree|]; [|done]. simpl.
  destruct (project_record tree) as [row'|] eqn:Hrow; [|done]. intros [= <-].
  unfold project_record in Hrow. rewrite (project_items_dom _ _ _ _ Hrow).
  by rewrite dom_empty_L, union_empty_l_L.
Qed.

Lemma rows_as_extracted_dom zf :
  Forall (fun row : Row => dom row = list_to_set fieldnames) (rows_as_extracted zf).
Proof.
  apply Forall_forall. intros row Hin. unfold rows_as_extracted in Hin.
  apply list_elem_of_bind in Hin as (f & Hin & _).
  apply list_elem_of_In, in_rev, list_elem_of_In in Hin.
  apply list_elem_of_omap in Hin as (record & _ & Hrow).
  by eapply record_row_dom.
Qed.

Lemma kept_all rows :
  Forall (fun row : Row => dom row = list_to_set fieldnames) rows ->
  kept rows = rows.
Proof.
  unfold kept. induction 1 as [|row rows Hrow _ IH]; [done|]. simpl.
  unfold is_over_columns at 1.
  rewrite bool_decide_eq_true_2 by (rewrite Hrow; reflexivity).
  by rewrite IH.
Qed.

(** X9. Every row that [get_data] returns has exactly the configured columns
    as its keys, so that no row of an extraction is refused by the writer. *)
Theorem get_data_rows_over_columns
    (target : string) (retry : bool) (w w' : World) (output : list Row) (name : string) :
  get_data target retry w = (Ok (output, name), w') ->
  Forall (fun row : Row => dom row = list_to_set fieldnames) output
  /\ kept output = output.
Proof.
  intros Hget.
  assert (exists zf, extract zf = Ok (output, name)) as [zf Hzf].
  { revert Hget. unfold get_data, get_data_body, fetch_archive, try_except,
      requests_get, logging, sleep, exit, raise, lift, emit, mbind, mret,
      M_bind, M_ret. simpl.
    destruct (net (requests w) target) as [r|]; simpl.
    - destruct (archive r) as [zf|]; simpl; [|done].
      destruct (from_option str_truthy false (zipfile.testzip zf)); simpl; [done|].
      intros [= H _]. by exists zf.
    - destruct retry; simpl; [done|].
      destruct (net (S (requests w)) target) as [r|]; simpl; [|done].
      destruct (archive r) as [zf|]; simpl; [|done].
      destruct (from_option str_truthy false (zipfile.testzip zf)); simpl; [done|].
      intros [= H _]. by exists zf. }
  apply extract_ok_iff in Hzf as (zf' & f & -> & _ & -> & _).
  pose proof (rows_as_extracted_dom (zf' ++ [f])) as Hdom. split; [done|].
  by apply kept_all.
Qed.

(** X10. An archive without members passes the validation and then fails:
    the name of the last member is read from a loop variable that was never
    bound, and [get_data] raises [UnboundLocalError] after one fetch, which
    ends the run before any serialization. *)
Theorem get_data_archive_without_member
    (target : string) (retry : bool) (w : World) (r : Response) :
  net (requests w) target = Some r ->
  archive r = Some [] ->
  get_data target retry w
  = (Raise UnboundLocalError, after w 1 [EvGet target; EvLog INFO])
  /\ forall bucket w0,
       get_latest_file false w0 = (Ok (Some target), w) ->
       target <> EmptyString -> retry = false ->
       put_first_firds_file_in_s3 bucket w0
       = (Raise UnboundLocalError, after w 1 [EvGet target; EvLog INFO]).
Proof.
  intros Hnet Hzf.
  assert (Hget : get_data target retry w
                 = (Raise UnboundLocalError, after w 1 [EvGet target; EvLog INFO])).
  { by rewrite (get_data_answered _ _ _ _ _ Hnet Hzf). }
  split; [done|]. intros bucket w0 Hsel Hne ->.
  by eapply put_first_extraction_raises.
Qed.

Lemma rows_as_extracted_nil gs :
  Forall (fun g => exists xml, zipfile.payload g = Some (zipfile.Utf8 xml)
                               /\ re.findall_records xml = []) gs ->
  rows_as_extracted gs = [].
Proof.
  unfold rows_as_extracted.
  induction 1 as [|g gs (xml & Hpayload & Hnone) _ IH]; [done|].
  rewrite bind_cons, IH. unfold member_records. by rewrite Hpayload, Hnone.
Qed.

(** X11. An archive whose members hold no fragment gives an empty extraction
    under the name of its last member, not an exception; the caller logs a
    notice and returns without serializing or writing to the sink. *)
Theorem get_data_archive_without_record
    (target : string) (retry : bool) (w : World) (r : Response)
    (zf : zipfile.ZipFile) (f : zipfile.ZipInfo) :
  net (requests w) target = Some r ->
  archive r = Some (zf ++ [f]) ->
  Forall (fun g => exists xml, zipfile.payload g = Some (zipfile.Utf8 xml)
                               /\ re.findall_records xml = []) (zf ++ [f]) ->
  get_data target retry w
  = (Ok ([], zipfile.filename f), after w 1 [EvGet target; EvLog INFO])
  /\ forall bucket w0,
       get_latest_file false w0 = (Ok (Some target), w) ->
       target <> EmptyString -> retry = false ->
       put_first_firds_file_in_s3 bucket w0
       = (Ok tt, after w 1 [EvGet target; EvLog INFO; EvLog WARNING]).
Proof.
  intros Hnet Hzf Hall.
  assert (Hext : extract (zf ++ [f]) = Ok ([], zipfile.filename f)).
  { apply extract_ok_iff. exists zf, f. split_and!; [done| | |done].
    - eapply Forall_impl; [exact Hall|]. intros g (xml & Hpayload & Hnone).
      exists xml. split; [done|]. rewrite Hnone. constructor.
    - symmetry. by apply rows_as_extracted_nil. }
  assert (Hget : get_data target retry w
                 = (Ok ([], zipfile.filename f),
                    after w 1 [EvGet target; EvLog INFO])).
  { rewrite (get_data_answered _ _ _ _ _ Hnet Hzf); [by rewrite Hext|].
    rewrite testzip_readable; [done|].
    eapply Forall_impl; [exact Hall|]. intros g (xml & -> & _). by eexists. }
  split; [done|]. intros bucket w0 Hsel Hne ->.
  unfold put_first_firds_file_in_s3, mbind, M_bind. rewrite Hsel.
  destruct target; [done|]. rewrite Hget.
  unfold logging, emit, after. simpl. by rewrite <- app_assoc.
Qed.

(** *** The rows that the writer refuses *)

Lemma is_over_columns_true row : is_over_columns row = true <-> over_columns row.
Proof. unfold is_over_columns, over_columns. apply bool_decide_eq_true. Qed.

Lemma DictWriter_writerow_refused row :
  is_over_columns row = false ->
  DictWriter_writerow fieldnames row = Raise ValueError.
Proof.
  intros H. unfold DictWriter_writerow. rewrite decide_False; [done|].
  intros Hsub. apply is_over_columns_true in Hsub. congruence.
Qed.

Lemma kept_length rows : length (kept rows) <= length rows.
Proof. apply filter_length_le. Qed.

Lemma kept_snoc rows row :
  kept (rows ++ [row])
  = kept rows ++ (if is_over_columns row then [row] else []).
Proof. unfold kept. by rewrite List.filter_app. Qed.

Lemma rows_loop_keeps rows : forall outf w,
  exists outf',
    rows_loop (length rows) rows outf w
    = (Ok (outf', []),
       after w 0 (replicate (length rows - length (kept rows)) (EvLog ERROR)))
    /\ getvalue outf' = getvalue outf +:+ writerows (row_values <$> rev (kept rows)).
Proof.
  induction rows as [|row rows IH] using rev_ind; intros outf w.
  - exists outf. simpl. by rewrite after_nothing, append_nil_r.
  - rewrite length_app, Nat.add_comm. simpl. rewrite pop_snoc, kept_snoc.
    pose proof (kept_length rows) as Hle.
    destruct (is_over_columns row) eqn:Hrow.
    + apply is_over_columns_true in Hrow.
      rewrite (DictWriter_writerow_over_columns _ Hrow).
      destruct (IH (StringIO_write outf (writerow (row_values row))) w)
        as (outf' & -> & Hvalue).
      exists outf'. rewrite length_app. simpl. split.
      * do 3 f_equal. lia.
      * rewrite Hvalue, rev_app_distr. simpl. by rewrite append_assoc.
    + rewrite (DictWriter_writerow_refused _ Hrow). simpl.
      unfold mbind, M_bind, logging, emit. simpl.
      destruct (IH outf (mkWorld (requests w) (trace w ++ [EvLog ERROR])))
        as (outf' & -> & Hvalue).
      exists outf'. rewrite app_nil_r. split; [|done].
      unfold after. simpl. rewrite <- app_assoc. do 3 f_equal.
      replace (S (length rows) - length (kept rows))
        with (S (length rows - length (kept rows))) by lia.
      done.
Qed.

(** What [write_to_csv] does with any list of rows. *)
Lemma write_to_csv_kept (rows : list Row) (w : World) :
  exists outf,
    write_to_csv rows w
    = (Ok (outf, []),
       after w 0 (EvWriteCsv (length rows)
                  :: replicate (length rows - length (kept rows)) (EvLog ERROR)))
    /\ csv.reader (StringIO_read outf)
       = Some (fieldnames :: (render <$> rev (kept rows))).
Proof.
  unfold write_to_csv, mbind, M_bind, emit, lift. simpl.
  rewrite DictWriter_writeheader_text.
  destruct (rows_loop_keeps rows
              (StringIO_write (mkStringIO EmptyString 0)
                              (writerow (Some <$> fieldnames)))
              (mkWorld (requests w) (trace w ++ [EvWriteCsv (length rows)])))
    as (outf' & -> & Hvalue).
  eexists. split.
  - unfold after. simpl. by rewrite <- app_assoc.
  - assert (Htext : getvalue (StringIO_seek outf' 0)
                    = writerows ((Some <$> fieldnames)
                                 :: (row_values <$> rev (kept rows))))
      by (simpl; by rewrite Hvalue).
    rewrite StringIO_read_all by done.
    by rewrite Htext, reader_writerows, read_back_records.
Qed.

(** X12. For any list of rows, [write_to_csv] writes the header and the rows
    whose keys are configured columns, from the last to the first; each other
    row is dropped with one error in the log, and never makes the call fail
    or spoil the text, which is read back as the header and the rows kept. *)
Theorem write_to_csv_keeps_rows_over_columns (rows : list Row) (w : World) :
  exists outf,
    write_to_csv rows w
    = (Ok (outf, []),
       after w 0 (EvWriteCsv (length rows)
                  :: replicate (length rows - length (kept rows)) (EvLog ERROR)))
    /\ csv.reader (StringIO_read outf)
       = Some (fieldnames :: (render <$> rev (kept rows))).
Proof. exact (write_to_csv_kept rows w). Qed.

(** *** The whole run *)

Lemma rev_rows_as_extracted zf : rev (rows_as_extracted zf) = rows_in_order (rev zf).
Proof.
  unfold rows_as_extracted, rows_in_order.
  induction zf as [|f zf IH]; [done|].
  rewrite bind_cons, rev_app_distr, rev_involutive, IH. simpl.
  by rewrite bind_app, bind_singleton.
Qed.

(** X13. When the registry and the archive answer at once and the extraction
    returns rows, the text serialized is read back as the header and one row
    for each record, none dropped, the members from the last to the first and
    the records of each member in the order of its text. If the client of
    the object store is built, the run puts one object, this text under the
    file name of the last member, and returns normally whether the store
    accepts the object or not; a refusal is only logged. If building the
    client raises, the exception leaves the run after the serialization and
    no object is put. *)
Theorem run_reaches_sink
    (bucket : string) (w : World) (r1 r2 : Response) (target : string)
    (zf : zipfile.ZipFile) (output : list Row) (name : string) :
  net (requests w) URL = Some r1 ->
  select_latest (text r1) = Ok (Some target) ->
  target <> EmptyString ->
  net (S (requests w)) target = Some r2 ->
  archive r2 = Some zf ->
  extract zf = Ok (output, name) ->
  output <> [] ->
  exists body,
    csv.reader body = Some (fieldnames :: (render <$> rows_in_order (rev zf)))
    /\ (exists zf' f, zf = zf' ++ [f] /\ name = zipfile.filename f)
    /\ (boto3_client "s3" = Ok tt ->
        put_first_firds_file_in_s3 bucket w
        = (Ok tt,
           after w 2 ([EvGet URL; EvGet target; EvLog INFO;
                       EvWriteCsv (length output)]
                      ++ upload_events bucket name body)))
    /\ (forall e,
          boto3_client "s3" = Raise e ->
          put_first_firds_file_in_s3 bucket w
          = (Raise e,
             after w 2 [EvGet URL; EvGet target; EvLog INFO;
                        EvWriteCsv (length output)])).
Proof.
  intros Hnet1 Hsel Hne Hnet2 Hzf Hext Hout.
  pose proof (proj1 (extract_ok_iff _ _ _) Hext) as (zf' & f & Hlast & Hall & Hrows & Hname).
  assert (Hget1 : get_latest_file false w
                  = (Ok (Some target), after w 1 [EvGet URL])).
  { rewrite (get_latest_file_answered _ _ _ Hnet1). by rewrite Hsel. }
  assert (Hget2 : get_data target false (after w 1 [EvGet URL])
                  = (Ok (output, name), after w 2 [EvGet URL; EvGet target; EvLog INFO])).
  { erewrite get_data_answered; [by rewrite Hext, after_after|exact Hnet2|exact Hzf|].
    rewrite testzip_readable; [done|].
    eapply Forall_impl; [exact Hall|]. intros g (xml & -> & _). by eexists. }
  destruct (write_to_csv_kept output
              (after w 2 [EvGet URL; EvGet target; EvLog INFO]))
    as (outf & Hwrite & Hread).
  assert (Hkept : kept output = output).
  { apply kept_all. rewrite Hrows. apply rows_as_extracted_dom. }
  rewrite Hkept, Nat.sub_diag in Hwrite. simpl in Hwrite.
  rewrite Hkept, Hrows, rev_rows_as_extracted in Hread.
  assert (Hrun : put_first_firds_file_in_s3 bucket w
                 = upload_to_s3 outf bucket name
                     (after w 2 [EvGet URL; EvGet target; EvLog INFO;
                                 EvWriteCsv (length output)])).
  { unfold put_first_firds_file_in_s3, mbind, M_bind. rewrite Hget1.
    destruct target as [|c target]; [done|]. rewrite Hget2.
    destruct output as [|row rows]; [done|]. rewrite Hwrite.
    by rewrite after_after. }
  exists (StringIO_read outf). split_and!; [done|by exists zf', f| |].
  - intros Hclient. rewrite Hrun.
    unfold upload_to_s3, upload_events, mbind, M_bind, emit, logging, emit, mret,
      M_ret, lift.
    rewrite Hclient. simpl.
    destruct (s3_put_object bucket name (StringIO_read outf)); simpl;
      unfold after; simpl; by rewrite <- !app_assoc.
  - intros e Hclient. rewrite Hrun.
    unfold upload_to_s3, mbind, M_bind, lift. by rewrite Hclient.
Qed.


Lemma fetched_app evs evs' : fetched (evs ++ evs') = fetched evs ++ fetched evs'.
Proof. apply omap_app. Qed.

Lemma puts_app evs evs' : puts (evs ++ evs') = puts evs + puts evs'.
Proof. unfold puts. by rewrite List.filter_app, length_app. Qed.

Lemma fetched_errors k : fetched (replicate k (EvLog ERROR)) = [].
Proof. induction k as [|k IH]; [done|]. exact IH. Qed.

Lemma puts_errors k : puts (replicate k (EvLog ERROR)) = 0.
Proof. induction k as [|k IH]; [done|]. exact IH. Qed.

Lemma get_latest_file_effects retry w :
  exists res n evs,
    get_latest_file retry w = (res, after w n evs)
    /\ 1 <= n <= 2 /\ fetched evs = replicate n URL /\ puts evs = 0.
Proof.
  destruct (net (requests w) URL) as [r|] eqn:Hnet.
  - eexists _, 1, _. split; [by apply get_latest_file_answered|]. split_and!; simpl; [lia|lia|done|done].
  - destruct retry.
    + eexists _, 1, _. split; [by apply get_latest_file_gives_up|]. split_and!; simpl; [lia|lia|done|done].
    + rewrite (get_latest_file_retries _ Hnet).
      destruct (net (S (requests w)) URL) as [r|] eqn:Hnet'.
      * erewrite get_latest_file_answered by exact Hnet'. rewrite after_after.
        eexists _, _, _. split; [done|]. split_and!; simpl; [lia|lia|done|done].
      * rewrite get_latest_file_gives_up by exact Hnet'. rewrite after_after.
        eexists _, _, _. split; [done|]. split_and!; simpl; [lia|lia|done|done].
Qed.

Lemma get_data_first_answer target retry w r :
  net (requests w) target = Some r ->
  exists res level,
    get_data target retry w = (res, after w 1 [EvGet target; EvLog level]).
Proof.
  intros Hnet. destruct (archive r) as [zf|] eqn:Hzf.
  - destruct (from_option str_truthy false (zipfile.testzip zf)) eqn:Htest.
    + eexists _, _. apply (get_data_invalid _ _ _ _ Hnet). right. by exists zf.
    + eexists _, _. by apply (get_data_answered _ _ _ _ _ Hnet Hzf).
  - eexists _, _. apply (get_data_invalid _ _ _ _ Hnet). by left.
Qed.

Lemma get_data_effects target retry w :
  exists res n evs,
    get_data target retry w = (res, after w n evs)
    /\ 1 <= n <= 2 /\ fetched evs = replicate n target /\ puts evs = 0.
Proof.
  destruct (net (requests w) target) as [r|] eqn:Hnet.
  - destruct (get_data_first_answer _ retry _ _ Hnet) as (res & level & ->).
    eexists _, 1, _. split; [done|]. split_and!; simpl; [lia|lia|done|done].
  - destruct retry.
    + eexists _, 1, _. split; [by apply get_data_gives_up|]. split_and!; simpl; [lia|lia|done|done].
    + rewrite (get_data_retries _ _ Hnet).
      destruct (net (S (requests w)) target) as [r|] eqn:Hnet'.
      * edestruct (get_data_first_answer target true) as (res & level & ->);
          [exact Hnet'|].
        rewrite after_after.
        eexists _, _, _. split; [done|]. split_and!; simpl; [lia|lia|done|done].
      * rewrite get_data_gives_up by exact Hnet'. rewrite after_after.
        eexists _, _, _. split; [done|]. split_and!; simpl; [lia|lia|done|done].
Qed.

(** The fetches of a run, endpoint by endpoint, and its uploads. *)
Lemma put_first_endpoints (bucket : string) (w : World) :
  exists n1 n2 evs target,
    (put_first_firds_file_in_s3 bucket w).2 = after w (n1 + n2) evs
    /\ 1 <= n1 <= 2 /\ n2 <= 2
    /\ fetched evs = replicate n1 URL ++ replicate n2 target
    /\ (0 < n2 -> (get_latest_file false w).1 = Ok (Some target))
    /\ puts evs <= 1.
Proof.
  destruct (get_latest_file_effects false w)
    as (res1 & n1 & evs1 & Hget1 & Hn1 & Hf1 & Hp1).
  unfold put_first_firds_file_in_s3, mbind, M_bind. rewrite Hget1.
  assert (Hstop : forall level,
    exists n2 evs target,
      after w n1 (evs1 ++ [EvLog level]) = after w (n1 + n2) evs
      /\ 1 <= n1 <= 2 /\ n2 <= 2
      /\ fetched evs = replicate n1 URL ++ replicate n2 target
      /\ (0 < n2 -> res1 = Ok (Some target))
      /\ puts evs <= 1).
  { intros level. exists 0, (evs1 ++ [EvLog level]), EmptyString.
    rewrite Nat.add_0_r, fetched_app, puts_app, Hf1, Hp1.
    split_and!; [done|lia|lia|lia|done|lia|unfold puts; simpl; lia]. }
  destruct res1 as [[[|c target]|]|e].
  - unfold logging, emit. simpl. exists n1.
    rewrite <- app_assoc. exact (Hstop WARNING).
  - clear Hstop.
    destruct (get_data_effects (String c target) false (after w n1 evs1))
      as (res2 & n2 & evs2 & Hget2 & Hn2 & Hf2 & Hp2).
    rewrite Hget2, after_after. rewrite (Nat.add_comm n2 n1).
    exists n1, n2.
    destruct res2 as [[[|row rows] name]|e].
    + unfold logging, emit. simpl.
      exists ((evs1 ++ evs2) ++ [EvLog WARNING]), (String c target).
      split; [unfold after; simpl; by rewrite <- !app_assoc|].
      rewrite !fetched_app, !puts_app, Hf1, Hp1, Hf2, Hp2.
      split_and!; [lia|lia|lia|by rewrite app_nil_r|done|unfold puts; simpl; lia].
    + destruct (write_to_csv_kept (row :: rows)
                  (after w (n1 + n2) (evs1 ++ evs2))) as (outf & -> & _).
      rewrite after_after.
      unfold upload_to_s3, mbind, M_bind, emit, logging, emit, mret, M_ret, lift.
      set (k := length (row :: rows) - length (kept (row :: rows))).
      destruct (boto3_client "s3") as [[]|e]; simpl.
      * destruct (s3_put_object bucket name (StringIO_read outf)); simpl.
        -- eexists (((evs1 ++ evs2) ++ EvWriteCsv _ :: replicate k (EvLog ERROR))
                      ++ [EvPutObject bucket name (StringIO_read outf)]),
                   (String c target).
           split; [unfold after; simpl; by rewrite <- !app_assoc|].
           rewrite !fetched_app, !puts_app, Hf1, Hp1, Hf2, Hp2.
           change (fetched (EvWriteCsv ?x :: ?l)) with (fetched l).
           change (puts (EvWriteCsv ?x :: ?l)) with (puts l).
           rewrite fetched_errors, puts_errors.
           split_and!; [lia|lia|lia|by rewrite !app_nil_r|done|unfold puts; simpl; lia].
        -- eexists (((evs1 ++ evs2) ++ EvWriteCsv _ :: replicate k (EvLog ERROR))
                      ++ [EvPutObject bucket name (StringIO_read outf);
                          EvLog ERROR]),
                   (String c target).
           split; [unfold after; simpl; by rewrite <- !app_assoc|].
           rewrite !fetched_app, !puts_app, Hf1, Hp1, Hf2, Hp2.
           change (fetched (EvWriteCsv ?x :: ?l)) with (fetched l).
           change (puts (EvWriteCsv ?x :: ?l)) with (puts l).
           rewrite fetched_errors, puts_errors.
           split_and!; [lia|lia|lia|by rewrite !app_nil_r|done|unfold puts; simpl; lia].
      * eexists ((evs1 ++ evs2) ++ EvWriteCsv _ :: replicate k (EvLog ERROR)),
                (String c target).
        split; [unfold after; simpl; by rewrite ?Nat.add_0_r|].
        rewrite !fetched_app, !puts_app, Hf1, Hp1, Hf2, Hp2.
        change (fetched (EvWriteCsv ?x :: ?l)) with (fetched l).
        change (puts (EvWriteCsv ?x :: ?l)) with (puts l).
        rewrite fetched_errors, puts_errors.
        split_and!; [lia|lia|lia|by rewrite !app_nil_r|done|lia].
    + simpl. exists (evs1 ++ evs2), (String c target). split; [done|].
      rewrite !fetched_app, !puts_app, Hf1, Hp1, Hf2, Hp2.
      split_and!; [lia|lia|lia|done|done|lia].
  - unfold logging, emit. simpl. exists n1.
    rewrite <- app_assoc. exact (Hstop WARNING).
  - simpl. exists n1, 0, evs1, EmptyString. rewrite Nat.add_0_r, Hf1, Hp1.
    split_and!; [done|lia|lia|lia|by rewrite app_nil_r|lia|lia].
Qed.


(** X14. Whatever the network, the documents and the object store do, a run
    fetches the registry once or twice, then at most twice the address that
    the selection returned, and nothing else; it puts at most one object. *)
Theorem run_is_bounded (bucket : string) (w : World) :
  exists n1 n2 evs target,
    (put_first_firds_file_in_s3 bucket w).2 = after w (n1 + n2) evs
    /\ 1 <= n1 <= 2 /\ n2 <= 2
    /\ fetched evs = replicate n1 URL ++ replicate n2 target
    /\ (0 < n2 -> (get_latest_file false w).1 = Ok (Some target))
    /\ puts evs <= 1.
Proof. exact (put_first_endpoints bucket w). Qed.


End Program.

(** ** The program on the sample data *)

(** The run that finds the feed and the archive: the first entry of minimal
    date is fetched, its two members give two rows, written from the last to
    the first under the name of the last member. *)
Example run_to_the_sink :
  put_first_firds_file_in_s3 Sample.URL Sample.TARGET_ELEMENTS XML.fromstring
    Sample.net_feed_then_archive Sample.s3_up Sample.client_up "bucket" Sample.w0
  = (Ok tt,
     mkWorld 2
       [EvGet Sample.URL; EvGet Sample.target_a; EvLog INFO; EvWriteCsv 2;
        EvPutObject "bucket" "DLTINS_20230101_02of02.xml"
          ("FinInstrmGnlAttrbts.Id,FinInstrmGnlAttrbts.FullNm,Issr" +:+ csv.CRLF
           +:+ "FR000B2,Beta SA,9695002" +:+ csv.CRLF
           +:+ "DE000A1," +:+ String DQUOTE "Alpha, AG" +:+ String DQUOTE ",5299001"
           +:+ csv.CRLF)]).
Proof. vm_compute. reflexivity. Qed.

(** The registry fails once and answers the retry: the run completes, the
    registry having been fetched exactly twice. *)
Example run_after_one_retry :
  put_first_firds_file_in_s3 Sample.URL Sample.TARGET_ELEMENTS XML.fromstring
    (Sample.net_of [None; Some (Sample.feed_response Sample.feed_three);
                    Some (Sample.archive_response Sample.archive_two_members)])
    Sample.s3_up Sample.client_up "bucket" Sample.w0
  = (Ok tt,
     mkWorld 3
       [EvGet Sample.URL; EvLog WARNING; EvSleep 10; EvGet Sample.URL;
        EvGet Sample.target_a; EvLog INFO; EvWriteCsv 2;
        EvPutObject "bucket" "DLTINS_20230101_02of02.xml"
          ("FinInstrmGnlAttrbts.Id,FinInstrmGnlAttrbts.FullNm,Issr" +:+ csv.CRLF
           +:+ "FR000B2,Beta SA,9695002" +:+ csv.CRLF
           +:+ "DE000A1," +:+ String DQUOTE "Alpha, AG" +:+ String DQUOTE ",5299001"
           +:+ csv.CRLF)]).
Proof. vm_compute. reflexivity. Qed.

(** The script when the network is down: everything is logged, and the
    script itself ends normally. *)
Example main_network_down :
  main Sample.URL Sample.TARGET_ELEMENTS XML.fromstring Sample.net_down
    Sample.s3_up Sample.client_up ["main.py"; "bucket"] Sample.w0
  = (Ok tt,
     mkWorld 2 ([EvLog INFO] ++ failed_twice Sample.URL ++ [EvLog ERROR])).
Proof. vm_compute. reflexivity. Qed.

(** The scenario of two fragments, the second without issuer: the
    projection of the second raises, and nothing is extracted. *)
Example extract_fragment_without_issuer :
  extract Sample.TARGET_ELEMENTS XML.fromstring
    [Sample.member "DLTINS_20230101_01of01.xml"
       (Sample.document [Sample.record_no_issuer; Sample.record_alpha])]
  = Raise AttributeError.
Proof. vm_compute. reflexivity. Qed.

(** ** Witnesses and counterexamples *)

(** The sample feed of three entries meets the hypotheses of the selection
    theorem. *)
Lemma select_latest_first_minimum_witness :
  XML.fromstring Sample.feed_three = Some (Sample.tree_of Sample.feed_three)
  /\ docs_of (Sample.tree_of Sample.feed_three) <> []
  /\ Forall (fun doc => is_Some (entry_of doc))
            (docs_of (Sample.tree_of Sample.feed_three))
  /\ exists i doc date link,
       docs_of (Sample.tree_of Sample.feed_three) !! i = Some doc
       /\ entry_of doc = Some (date, link)
       /\ select_latest XML.fromstring Sample.feed_three = Ok link
       /\ (forall retry w r,
             Sample.net_feed_then_archive (requests w) Sample.URL = Some r ->
             text r = Sample.feed_three ->
             get_latest_file Sample.URL XML.fromstring Sample.net_feed_then_archive
               retry w = (Ok link, after w 1 [EvGet Sample.URL]))
       /\ forall j doc' date' link',
            docs_of (Sample.tree_of Sample.feed_three) !! j = Some doc' ->
            entry_of doc' = Some (date', link') ->
            (date <= date')%Z /\ (j < i -> (date < date')%Z).
Proof.
  assert (H1 : XML.fromstring Sample.feed_three
               = Some (Sample.tree_of Sample.feed_three))
    by (vm_compute; reflexivity).
  assert (H2 : docs_of (Sample.tree_of Sample.feed_three) <> [])
    by (vm_compute; discriminate).
  assert (H3 : Forall (fun doc => is_Some (entry_of doc))
                      (docs_of (Sample.tree_of Sample.feed_three)))
    by (apply (bool_decide_unpack _); vm_compute; exact I).
  exact (conj H1 (conj H2 (conj H3
           (select_latest_first_minimum Sample.URL XML.fromstring
              Sample.net_feed_then_archive _ _ H1 H2 H3)))).
Defined.

(** C3 as stated fails: each of two sample feeds has one valid entry, of
    date 20230101, followed by an entry that is not valid, a file name
    outside the grammar in the first feed and a date token that is no integer
    in the second. The selection raises instead of returning the download
    reference of the valid entry. *)
Lemma select_latest_one_valid_entry_counterexample :
  entry_of <$> Sample.docs_of_feed Sample.feed_off_grammar
  = [Some (20230101%Z, Some "http://firds.example/a.zip"); None]
  /\ XML.fromstring Sample.feed_off_grammar
     = Some (Sample.tree_of Sample.feed_off_grammar)
  /\ select_latest XML.fromstring Sample.feed_off_grammar = Raise AttributeError
  /\ entry_of <$> Sample.docs_of_feed Sample.feed_bad_date
     = [Some (20230101%Z, Some "http://firds.example/a.zip"); None]
  /\ XML.fromstring Sample.feed_bad_date
     = Some (Sample.tree_of Sample.feed_bad_date)
  /\ select_latest XML.fromstring Sample.feed_bad_date = Raise ValueError
  /\ ~ (exists i doc date link,
          Sample.docs_of_feed Sample.feed_off_grammar !! i = Some doc
          /\ entry_of doc = Some (date, link)
          /\ select_latest XML.fromstring Sample.feed_off_grammar = Ok link).
Proof.
  split_and!; try (vm_compute; reflexivity).
  intros (i & doc & date & link & _ & _ & H). vm_compute in H. discriminate.
Qed.

(** The entry selected in the sample feed is the second one: its date is
    minimal, and it comes before the other entry of that date. *)
Example select_latest_feed_three :
  entry_of <$> Sample.docs_of_feed Sample.feed_three
  = [Some (20230102%Z, Some "http://firds.example/c.zip");
     Some (20230101%Z, Some "http://firds.example/a.zip");
     Some (20230101%Z, Some "http://firds.example/b.zip")]
  /\ select_latest XML.fromstring Sample.feed_three
     = Ok (Some "http://firds.example/a.zip").
Proof. split; vm_compute; reflexivity. Qed.

(** C5 as stated fails: the first entry of the sample feed matches the
    grammar, the second does not, and the selection raises instead of
    selecting the first. *)
Lemma select_latest_off_grammar_counterexample :
  (fun doc => file_info_of doc !! Some "file_name")
    <$> Sample.docs_of_feed Sample.feed_off_grammar
  = [Some (Some "DLTINS_20230101_01of01.zip");
     Some (Some "FULINS_D_20230101_01of01.zip")]
  /\ re.match_file_date "DLTINS_20230101_01of01.zip" = Some "20230101"
  /\ re.match_file_date "FULINS_D_20230101_01of01.zip" = None
  /\ select_latest XML.fromstring Sample.feed_off_grammar = Raise AttributeError
  /\ ~ is_Ok (select_latest XML.fromstring Sample.feed_off_grammar).
Proof.
  split_and!; try (vm_compute; reflexivity).
  intros [target H]. vm_compute in H. discriminate.
Qed.

(** The sample feed with a full file after a delta file meets the hypotheses
    of the amended statement. *)
Lemma select_latest_off_grammar_entry_witness :
  let docs := Sample.docs_of_feed Sample.feed_off_grammar in
  let doc := default (Elem EmptyString ∅ None []) (docs !! 1) in
  XML.fromstring Sample.feed_off_grammar
  = Some (Sample.tree_of Sample.feed_off_grammar)
  /\ docs_of (Sample.tree_of Sample.feed_off_grammar) = take 1 docs ++ doc :: drop 2 docs
  /\ off_grammar doc
  /\ is_Raise (select_latest XML.fromstring Sample.feed_off_grammar)
  /\ (Forall (fun d => is_Some (entry_of d)) (take 1 docs) ->
      select_latest XML.fromstring Sample.feed_off_grammar = Raise AttributeError)
  /\ (forall retry w r,
        Sample.net_down (requests w) Sample.URL = Some r ->
        text r = Sample.feed_off_grammar ->
        get_latest_file Sample.URL XML.fromstring Sample.net_down retry w
        = (select_latest XML.fromstring Sample.feed_off_grammar,
           after w 1 [EvGet Sample.URL])).
Proof.
  intros docs doc.
  assert (H1 : XML.fromstring Sample.feed_off_grammar
               = Some (Sample.tree_of Sample.feed_off_grammar))
    by (vm_compute; reflexivity).
  assert (H2 : docs_of (Sample.tree_of Sample.feed_off_grammar)
               = take 1 docs ++ doc :: drop 2 docs)
    by (vm_compute; reflexivity).
  assert (H3 : off_grammar doc).
  { exists "FULINS_D_20230101_01of01.zip". split; vm_compute; reflexivity. }
  exact (conj H1 (conj H2 (conj H3
           (select_latest_off_grammar_entry Sample.URL XML.fromstring
              Sample.net_down _ _ _ _ _ H1 H2 H3)))).
Defined.

(** The empty sample feed, answered on the retry. *)
Lemma select_latest_no_entry_witness :
  XML.fromstring Sample.feed_empty = Some (Sample.tree_of Sample.feed_empty)
  /\ docs_of (Sample.tree_of Sample.feed_empty) = []
  /\ select_latest XML.fromstring Sample.feed_empty = Ok None
  /\ put_first_firds_file_in_s3 Sample.URL Sample.TARGET_ELEMENTS XML.fromstring
       Sample.net_retry_then_empty Sample.s3_up Sample.client_up "bucket" Sample.w0
     = (Ok tt, after Sample.w0 2 [EvGet Sample.URL; EvLog WARNING; EvSleep 10;
                                  EvGet Sample.URL; EvLog WARNING]).
Proof.
  assert (H1 : XML.fromstring Sample.feed_empty
               = Some (Sample.tree_of Sample.feed_empty))
    by (vm_compute; reflexivity).
  assert (H2 : docs_of (Sample.tree_of Sample.feed_empty) = [])
    by (vm_compute; reflexivity).
  destruct (select_latest_no_entry Sample.URL Sample.TARGET_ELEMENTS
              XML.fromstring Sample.net_retry_then_empty Sample.s3_up Sample.client_up _ _ H1 H2)
    as (Hsel & _ & Hretry).
  split_and!; [exact H1 | exact H2 | exact Hsel |].
  apply (Hretry "bucket" Sample.w0 (Sample.feed_response Sample.feed_empty));
    reflexivity.
Defined.

(** The network that is down, and the network that goes down after the
    feed. *)
Lemma transport_failure_retried_once_then_fatal_witness :
  (Sample.net_down 0 Sample.URL = None /\ Sample.net_down 1 Sample.URL = None
   /\ put_first_firds_file_in_s3 Sample.URL Sample.TARGET_ELEMENTS XML.fromstring
        Sample.net_down Sample.s3_up Sample.client_up "bucket" Sample.w0
      = (Raise SystemExit, after Sample.w0 2 (failed_twice Sample.URL)))
  /\ (let w1 := after Sample.w0 1 [EvGet Sample.URL] in
      get_latest_file Sample.URL XML.fromstring Sample.net_feed_then_down false
        Sample.w0 = (Ok (Some Sample.target_a), w1)
      /\ Sample.net_feed_then_down 1 Sample.target_a = None
      /\ Sample.net_feed_then_down 2 Sample.target_a = None
      /\ put_first_firds_file_in_s3 Sample.URL Sample.TARGET_ELEMENTS
           XML.fromstring Sample.net_feed_then_down Sample.s3_up Sample.client_up "bucket" Sample.w0
         = (Raise SystemExit, after w1 2 (failed_twice Sample.target_a))).
Proof.
  split.
  - destruct (transport_failure_retried_once_then_fatal Sample.URL
                Sample.TARGET_ELEMENTS XML.fromstring Sample.net_down Sample.s3_up Sample.client_up)
      as (_ & Hregistry & _).
    split_and!; [reflexivity | reflexivity |].
    apply (Hregistry Sample.w0); reflexivity.
  - intros w1.
    destruct (transport_failure_retried_once_then_fatal Sample.URL
                Sample.TARGET_ELEMENTS XML.fromstring Sample.net_feed_then_down
                Sample.s3_up Sample.client_up) as (_ & _ & Harchive & _).
    assert (Hsel : get_latest_file Sample.URL XML.fromstring
                     Sample.net_feed_then_down false Sample.w0
                   = (Ok (Some Sample.target_a), w1))
      by (vm_compute; reflexivity).
    split_and!; [exact Hsel | reflexivity | reflexivity |].
    apply (Harchive Sample.target_a w1); [reflexivity | reflexivity | exact Hsel |].
    discriminate.
Defined.

(** The sample archive whose second member cannot be read. *)
Lemma invalid_archive_fatal_without_retry_witness :
  let w1 := after Sample.w0 1 [EvGet Sample.URL] in
  let r := Sample.archive_response Sample.archive_corrupt in
  Sample.net_feed_then_corrupt (requests w1) Sample.target_a = Some r
  /\ zipfile.testzip Sample.archive_corrupt = Some "DLTINS_20230101_02of02.xml"
  /\ exists e level,
       get_data Sample.TARGET_ELEMENTS XML.fromstring Sample.net_feed_then_corrupt
         Sample.target_a false w1
       = (Raise e, after w1 1 [EvGet Sample.target_a; EvLog level])
       /\ ((archive r = None
            \/ exists zf bad, archive r = Some zf
                 /\ zipfile.testzip zf = Some bad /\ bad <> EmptyString) ->
           e = SystemExit /\ level = ERROR)
       /\ forall bucket w0,
            get_latest_file Sample.URL XML.fromstring Sample.net_feed_then_corrupt
              false w0 = (Ok (Some Sample.target_a), w1) ->
            Sample.target_a <> EmptyString -> false = false ->
            put_first_firds_file_in_s3 Sample.URL Sample.TARGET_ELEMENTS
              XML.fromstring Sample.net_feed_then_corrupt Sample.s3_up Sample.client_up bucket w0
            = (Raise e, after w1 1 [EvGet Sample.target_a; EvLog level]).
Proof.
  intros w1 r.
  assert (H1 : Sample.net_feed_then_corrupt (requests w1) Sample.target_a = Some r)
    by reflexivity.
  assert (H2 : zipfile.testzip Sample.archive_corrupt
               = Some "DLTINS_20230101_02of02.xml") by reflexivity.
  split_and!; [exact H1 | exact H2 |].
  apply (invalid_archive_fatal_without_retry Sample.URL Sample.TARGET_ELEMENTS
           XML.fromstring Sample.net_feed_then_corrupt Sample.s3_up Sample.client_up
           Sample.target_a false w1 r H1).
  right. exists Sample.archive_corrupt. split; [reflexivity|].
  rewrite H2. by eexists.
Defined.

(** The corrupt archive of the sample ends the run after one fetch of it. *)
Example run_corrupt_archive :
  put_first_firds_file_in_s3 Sample.URL Sample.TARGET_ELEMENTS XML.fromstring
    Sample.net_feed_then_corrupt Sample.s3_up Sample.client_up "bucket" Sample.w0
  = (Raise SystemExit,
     mkWorld 2 [EvGet Sample.URL; EvGet Sample.target_a; EvLog ERROR]).
Proof. vm_compute. reflexivity. Qed.

(** C1 as stated fails: the record without issuer is well formed, the path
    of the column [Issr] is not found in it, and the projection raises
    instead of mapping the column to [None]. *)
Lemma project_record_missing_path_counterexample :
  let tree := Sample.tree_of Sample.record_no_issuer in
  XML.fromstring Sample.record_no_issuer = Some tree
  /\ (fun it => ElementTree.find it.2 tree) <$> Sample.TARGET_ELEMENTS
     = [Some (Elem "Id" ∅ (Some "NL000C3") []);
        Some (Elem "FullNm" ∅ (Some "Gamma NV") []);
        None]
  /\ project_record Sample.TARGET_ELEMENTS tree = Raise AttributeError
  /\ ~ (exists row : Row,
          project_record Sample.TARGET_ELEMENTS tree = Ok row
          /\ dom row = list_to_set (fieldnames Sample.TARGET_ELEMENTS)
          /\ row !! "Issr" = Some None).
Proof.
  intros tree. split_and!; try (vm_compute; reflexivity).
  intros (row & H & _). vm_compute in H. discriminate.
Qed.

(** The full sample record and the record without issuer. *)
Lemma project_record_keys_or_failure_witness :
  let full := Sample.tree_of Sample.record_alpha in
  let partial := Sample.tree_of Sample.record_no_issuer in
  Forall (fun it => is_Some (ElementTree.find it.2 full)) Sample.TARGET_ELEMENTS
  /\ NoDup (fieldnames Sample.TARGET_ELEMENTS)
  /\ Exists (fun it => ElementTree.find it.2 partial = None) Sample.TARGET_ELEMENTS
  /\ (exists row,
        project_record Sample.TARGET_ELEMENTS full = Ok row
        /\ dom row = list_to_set (fieldnames Sample.TARGET_ELEMENTS)
        /\ (NoDup (fieldnames Sample.TARGET_ELEMENTS) ->
            forall alias element, (alias, element) ∈ Sample.TARGET_ELEMENTS ->
              exists found, ElementTree.find element full = Some found
                            /\ row !! alias = Some (ElementTree.text found)))
  /\ project_record Sample.TARGET_ELEMENTS partial = Raise AttributeError.
Proof.
  intros full partial.
  assert (H1 : Forall (fun it => is_Some (ElementTree.find it.2 full))
                      Sample.TARGET_ELEMENTS)
    by (apply (bool_decide_unpack _); vm_compute; exact I).
  assert (H2 : NoDup (fieldnames Sample.TARGET_ELEMENTS))
    by (apply (bool_decide_unpack _); vm_compute; exact I).
  assert (H3 : Exists (fun it => ElementTree.find it.2 partial = None)
                      Sample.TARGET_ELEMENTS)
    by (apply (bool_decide_unpack _); vm_compute; exact I).
  split_and!; [exact H1 | exact H2 | exact H3 | |].
  - exact (proj1 (project_record_keys_or_failure Sample.TARGET_ELEMENTS full) H1).
  - exact (proj2 (project_record_keys_or_failure Sample.TARGET_ELEMENTS partial) H3).
Defined.

(** The row of the full sample record. *)
Example project_record_alpha :
  project_record Sample.TARGET_ELEMENTS (Sample.tree_of Sample.record_alpha)
  = Ok Sample.row_alpha.
Proof. vm_compute. reflexivity. Qed.

(** C2 as stated fails: the sample member has two well-formed fragments
    around a malformed one, and the extraction raises instead of yielding two
    mappings. *)
Lemma extract_malformed_fragment_counterexample :
  zipfile.payload Sample.member_with_malformed
  = Some (zipfile.Utf8 (Sample.document
            [Sample.record_alpha; Sample.record_malformed; Sample.record_beta]))
  /\ re.findall_records (Sample.document
       [Sample.record_alpha; Sample.record_malformed; Sample.record_beta])
     = [Sample.record_alpha; Sample.record_malformed; Sample.record_beta]
  /\ projectable Sample.TARGET_ELEMENTS XML.fromstring Sample.record_alpha
  /\ projectable Sample.TARGET_ELEMENTS XML.fromstring Sample.record_beta
  /\ ~ well_formed XML.fromstring Sample.record_malformed
  /\ extract Sample.TARGET_ELEMENTS XML.fromstring [Sample.member_with_malformed]
     = Raise ParseError
  /\ ~ (exists output name,
          extract Sample.TARGET_ELEMENTS XML.fromstring
            [Sample.member_with_malformed] = Ok (output, name)
          /\ length output = 2).
Proof.
  split_and!; try (vm_compute; reflexivity).
  - eexists. split; [vm_compute; reflexivity|]. eexists. vm_compute. reflexivity.
  - eexists. split; [vm_compute; reflexivity|]. eexists. vm_compute. reflexivity.
  - intros [tree H]. vm_compute in H. discriminate.
  - intros (output & name & H & _). vm_compute in H. discriminate.
Qed.

(** The sample member with a malformed fragment, and a member without it. *)
Lemma extract_all_fragments_or_failure_witness :
  let xml := Sample.document
               [Sample.record_alpha; Sample.record_malformed; Sample.record_beta] in
  let good := Sample.document [Sample.record_alpha; Sample.record_beta] in
  zipfile.payload Sample.member_with_malformed = Some (zipfile.Utf8 xml)
  /\ re.findall_records xml
     = [Sample.record_alpha] ++ Sample.record_malformed :: [Sample.record_beta]
  /\ XML.fromstring Sample.record_malformed = None
  /\ Forall (projectable Sample.TARGET_ELEMENTS XML.fromstring) [Sample.record_beta]
  /\ extract Sample.TARGET_ELEMENTS XML.fromstring [Sample.member_with_malformed]
     = Raise ParseError
  /\ Forall (projectable Sample.TARGET_ELEMENTS XML.fromstring)
            (re.findall_records good)
  /\ exists output,
       extract Sample.TARGET_ELEMENTS XML.fromstring [Sample.member "m.xml" good]
       = Ok (output, "m.xml")
       /\ length output = length (re.findall_records good).
Proof.
  intros xml good.
  assert (Hbeta : projectable Sample.TARGET_ELEMENTS XML.fromstring Sample.record_beta).
  { eexists. split; [vm_compute; reflexivity|]. eexists. vm_compute. reflexivity. }
  assert (Halpha : projectable Sample.TARGET_ELEMENTS XML.fromstring Sample.record_alpha).
  { eexists. split; [vm_compute; reflexivity|]. eexists. vm_compute. reflexivity. }
  assert (H1 : zipfile.payload Sample.member_with_malformed = Some (zipfile.Utf8 xml))
    by reflexivity.
  assert (H2 : re.findall_records xml
               = [Sample.record_alpha] ++ Sample.record_malformed :: [Sample.record_beta])
    by (vm_compute; reflexivity).
  assert (H3 : XML.fromstring Sample.record_malformed = None)
    by (vm_compute; reflexivity).
  assert (H4 : Forall (projectable Sample.TARGET_ELEMENTS XML.fromstring)
                      [Sample.record_beta])
    by (constructor; [exact Hbeta | constructor]).
  assert (H5 : Forall (projectable Sample.TARGET_ELEMENTS XML.fromstring)
                      (re.findall_records good)).
  { replace (re.findall_records good) with [Sample.record_alpha; Sample.record_beta]
      by (vm_compute; reflexivity).
    constructor; [exact Halpha | exact H4]. }
  split_and!; [exact H1 | exact H2 | exact H3 | exact H4 | | exact H5 |].
  - exact (proj1 (proj2 (proj2 (extract_all_fragments_or_failure
                                  Sample.TARGET_ELEMENTS XML.fromstring
                                  Sample.net_down _ _ H1))) _ _ _ H2 H3 H4).
  - exact (proj1 (extract_all_fragments_or_failure Sample.TARGET_ELEMENTS
                    XML.fromstring Sample.net_down
                    (Sample.member "m.xml" good) good eq_refl) H5).
Defined.

(** The sample archive of two members. *)
Lemma extract_names_last_member_witness :
  let first := Sample.member "DLTINS_20230101_01of02.xml"
                 (Sample.document [Sample.record_alpha]) in
  let last_ := Sample.member "DLTINS_20230101_02of02.xml"
                 (Sample.document [Sample.record_beta]) in
  Forall (processable Sample.TARGET_ELEMENTS XML.fromstring) ([first] ++ [last_])
  /\ exists output,
       extract Sample.TARGET_ELEMENTS XML.fromstring ([first] ++ [last_])
       = Ok (output, "DLTINS_20230101_02of02.xml").
Proof.
  intros first last_.
  assert (H : Forall (processable Sample.TARGET_ELEMENTS XML.fromstring)
                     ([first] ++ [last_])).
  { repeat constructor.
    - eexists. split; [reflexivity|].
      replace (re.findall_records (Sample.document [Sample.record_alpha]))
        with [Sample.record_alpha] by (vm_compute; reflexivity).
      repeat constructor. eexists. split; [vm_compute; reflexivity|].
      eexists. vm_compute. reflexivity.
    - eexists. split; [reflexivity|].
      replace (re.findall_records (Sample.document [Sample.record_beta]))
        with [Sample.record_beta] by (vm_compute; reflexivity).
      repeat constructor. eexists. split; [vm_compute; reflexivity|].
      eexists. vm_compute. reflexivity. }
  split; [exact H|].
  exact (proj1 (proj2 (extract_names_last_member Sample.TARGET_ELEMENTS
                         XML.fromstring Sample.net_down [first] last_)) H).
Defined.

(** The two sample rows are over the sample columns. *)
Lemma write_to_csv_roundtrip_witness :
  let rows := [Sample.row_alpha; Sample.row_gamma] in
  Forall (over_columns Sample.TARGET_ELEMENTS) rows
  /\ exists outf data,
       write_to_csv Sample.TARGET_ELEMENTS rows Sample.w0
       = (Ok (outf, []), after Sample.w0 0 [EvWriteCsv (length rows)])
       /\ csv.reader (StringIO_read outf)
          = Some (fieldnames Sample.TARGET_ELEMENTS :: data)
       /\ length data = length rows
       /\ Permutation data (render Sample.TARGET_ELEMENTS <$> rows).
Proof.
  intros rows.
  assert (H : Forall (over_columns Sample.TARGET_ELEMENTS) rows)
    by (repeat constructor; unfold over_columns;
        apply (bool_decide_unpack _); vm_compute; exact I).
  exact (conj H (write_to_csv_roundtrip Sample.TARGET_ELEMENTS rows Sample.w0 H)).
Defined.

(** The text of the two sample rows, and what is read back from it. *)
Example write_to_csv_sample :
  let text :=
    "FinInstrmGnlAttrbts.Id,FinInstrmGnlAttrbts.FullNm,Issr" +:+ csv.CRLF
    +:+ "NL000C3,Gamma NV," +:+ csv.CRLF
    +:+ "DE000A1," +:+ String DQUOTE "Alpha, AG" +:+ String DQUOTE ",5299001"
    +:+ csv.CRLF in
  write_to_csv Sample.TARGET_ELEMENTS [Sample.row_alpha; Sample.row_gamma] Sample.w0
  = (Ok (mkStringIO text 0, []), mkWorld 0 [EvWriteCsv 2])
  /\ csv.reader text
     = Some [["FinInstrmGnlAttrbts.Id"; "FinInstrmGnlAttrbts.FullNm"; "Issr"];
             ["NL000C3"; "Gamma NV"; ""];
             ["DE000A1"; "Alpha, AG"; "5299001"]].
Proof. split; vm_compute; reflexivity. Qed.

(** The two sample rows, written from the last to the first. *)
Lemma write_to_csv_consumes_in_reverse_witness :
  let rows := [Sample.row_alpha; Sample.row_gamma] in
  Forall (over_columns Sample.TARGET_ELEMENTS) rows
  /\ exists outf written data,
       write_to_csv Sample.TARGET_ELEMENTS rows Sample.w0
       = (Ok (outf, []), after Sample.w0 0 [EvWriteCsv (length rows)])
       /\ getvalue outf
          = writerows ((Some <$> fieldnames Sample.TARGET_ELEMENTS) :: written)
       /\ csv.reader (getvalue outf)
          = Some (fieldnames Sample.TARGET_ELEMENTS :: data)
       /\ length written = length rows
       /\ length data = length rows
       /\ forall i, i < length rows ->
            written !! i
            = row_values Sample.TARGET_ELEMENTS <$> rows !! (length rows - 1 - i)
            /\ data !! i
               = render Sample.TARGET_ELEMENTS <$> rows !! (length rows - 1 - i).
Proof.
  intros rows.
  assert (H : Forall (over_columns Sample.TARGET_ELEMENTS) rows)
    by (repeat constructor; unfold over_columns;
        apply (bool_decide_unpack _); vm_compute; exact I).
  exact (conj H (proj2 (write_to_csv_consumes_in_reverse
                          Sample.TARGET_ELEMENTS rows Sample.w0) H)).
Defined.

(** A row with a key that is no column is logged and dropped, and the list
    is emptied all the same. *)
Example write_to_csv_foreign_key :
  write_to_csv Sample.TARGET_ELEMENTS
    [Sample.row_alpha; <["Ccy" := Some "EUR"]> Sample.row_gamma] Sample.w0
  = (Ok (mkStringIO
           ("FinInstrmGnlAttrbts.Id,FinInstrmGnlAttrbts.FullNm,Issr" +:+ csv.CRLF
            +:+ "DE000A1," +:+ String DQUOTE "Alpha, AG" +:+ String DQUOTE ",5299001"
            +:+ csv.CRLF) 0, []),
     mkWorld 0 [EvWriteCsv 2; EvLog ERROR]).
Proof. vm_compute. reflexivity. Qed.

(** ** Witnesses of the further properties *)

(** The selection in the sample feed of three entries returns. *)
Lemma select_latest_returns_witness :
  select_latest XML.fromstring Sample.feed_three = Ok (Some Sample.target_a)
  /\ exists tree,
       XML.fromstring Sample.feed_three = Some tree
       /\ Forall (fun doc => is_Some (date_of doc)) (docs_of tree)
       /\ (docs_of tree = [] -> Some Sample.target_a = None)
       /\ (docs_of tree <> [] ->
           exists i doc d,
             docs_of tree !! i = Some doc /\ date_of doc = Some d
             /\ link_of doc = Some (Some Sample.target_a)
             /\ forall j doc' d', docs_of tree !! j = Some doc' ->
                  date_of doc' = Some d' ->
                  (d <= d')%Z /\ (j < i -> (d < d')%Z)).
Proof.
  assert (H : select_latest XML.fromstring Sample.feed_three
              = Ok (Some Sample.target_a)) by (vm_compute; reflexivity).
  exact (conj H (select_latest_returns XML.fromstring _ _ H)).
Defined.

(** The sample feed whose second entry has a date that is no integer. *)
Lemma select_latest_first_bad_entry_witness :
  let docs := Sample.docs_of_feed Sample.feed_bad_date in
  let doc := default (Elem EmptyString ∅ None []) (docs !! 1) in
  XML.fromstring Sample.feed_bad_date = Some (Sample.tree_of Sample.feed_bad_date)
  /\ docs_of (Sample.tree_of Sample.feed_bad_date) = take 1 docs ++ doc :: drop 2 docs
  /\ Forall (fun d => is_Some (entry_of d)) (take 1 docs)
  /\ file_info_of doc !! Some "file_name" = Some (Some "DLTINS_2023-01-02_01of01.zip")
  /\ re.match_file_date "DLTINS_2023-01-02_01of01.zip" = Some "2023-01-02"
  /\ py_int "2023-01-02" = None
  /\ select_latest XML.fromstring Sample.feed_bad_date = Raise ValueError.
Proof.
  intros docs doc.
  assert (H1 : XML.fromstring Sample.feed_bad_date
               = Some (Sample.tree_of Sample.feed_bad_date))
    by (vm_compute; reflexivity).
  assert (H2 : docs_of (Sample.tree_of Sample.feed_bad_date)
               = take 1 docs ++ doc :: drop 2 docs)
    by (vm_compute; reflexivity).
  assert (H3 : Forall (fun d => is_Some (entry_of d)) (take 1 docs))
    by (apply (bool_decide_unpack _); vm_compute; exact I).
  assert (H4 : file_info_of doc !! Some "file_name"
               = Some (Some "DLTINS_2023-01-02_01of01.zip"))
    by (vm_compute; reflexivity).
  assert (H5 : re.match_file_date "DLTINS_2023-01-02_01of01.zip" = Some "2023-01-02")
    by (vm_compute; reflexivity).
  assert (H6 : py_int "2023-01-02" = None) by (vm_compute; reflexivity).
  split_and!; [exact H1|exact H2|exact H3|exact H4|exact H5|exact H6|].
  exact (proj1 (proj2 (proj2 (select_latest_first_bad_entry XML.fromstring
                                _ _ _ _ _ H1 H2 H3))) _ _ H4 H5 H6).
Defined.

(** The sample feed with an entry outside the grammar, answered at once. *)
Lemma selection_exception_is_fatal_witness :
  Sample.net_feed_off_grammar (requests Sample.w0) Sample.URL
  = Some (Sample.feed_response Sample.feed_off_grammar)
  /\ select_latest XML.fromstring Sample.feed_off_grammar = Raise AttributeError
  /\ main Sample.URL Sample.TARGET_ELEMENTS XML.fromstring
       Sample.net_feed_off_grammar Sample.s3_up Sample.client_up ["main.py"; "bucket"] Sample.w0
     = (Ok tt, after Sample.w0 1 [EvLog INFO; EvGet Sample.URL; EvLog ERROR]).
Proof.
  assert (H1 : Sample.net_feed_off_grammar (requests Sample.w0) Sample.URL
               = Some (Sample.feed_response Sample.feed_off_grammar))
    by reflexivity.
  assert (H2 : select_latest XML.fromstring
                 (text (Sample.feed_response Sample.feed_off_grammar))
               = Raise AttributeError) by (vm_compute; reflexivity).
  split_and!; [exact H1|exact H2|].
  exact (proj2 (proj2 (selection_exception_is_fatal Sample.URL Sample.TARGET_ELEMENTS
                         XML.fromstring Sample.net_feed_off_grammar Sample.s3_up Sample.client_up
                         false "bucket" "main.py" Sample.w0 _ _ H1 H2))).
Defined.

(** The registry fails once, then answers with the sample feed. *)
Lemma retry_answered_like_first_answer_witness :
  Sample.net_retry_then_feed 0 Sample.URL = None
  /\ Sample.net_retry_then_feed 1 Sample.URL
     = Some (Sample.feed_response Sample.feed_three)
  /\ get_latest_file Sample.URL XML.fromstring Sample.net_retry_then_feed false
       Sample.w0
     = (select_latest XML.fromstring Sample.feed_three,
        after Sample.w0 2
          [EvGet Sample.URL; EvLog WARNING; EvSleep 10; EvGet Sample.URL]).
Proof.
  split_and!; [reflexivity|reflexivity|].
  apply (proj1 (retry_answered_like_first_answer Sample.URL Sample.TARGET_ELEMENTS
                  XML.fromstring Sample.net_retry_then_feed) Sample.w0
               (Sample.feed_response Sample.feed_three)); reflexivity.
Defined.

(** The rows of the sample archive of two members. *)
Lemma get_data_rows_over_columns_witness :
  let w1 := after Sample.w0 1 [EvGet Sample.URL] in
  let output := rows_as_extracted Sample.TARGET_ELEMENTS XML.fromstring
                  Sample.archive_two_members in
  get_data Sample.TARGET_ELEMENTS XML.fromstring Sample.net_feed_then_archive
    Sample.target_a false w1
  = (Ok (output, "DLTINS_20230101_02of02.xml"),
     after w1 1 [EvGet Sample.target_a; EvLog INFO])
  /\ Forall (fun row : Row => dom row = list_to_set (fieldnames Sample.TARGET_ELEMENTS))
            output
  /\ kept Sample.TARGET_ELEMENTS output = output.
Proof.
  intros w1 output.
  assert (H : get_data Sample.TARGET_ELEMENTS XML.fromstring
                Sample.net_feed_then_archive Sample.target_a false w1
              = (Ok (output, "DLTINS_20230101_02of02.xml"),
                 after w1 1 [EvGet Sample.target_a; EvLog INFO]))
    by (vm_compute; reflexivity).
  exact (conj H (get_data_rows_over_columns Sample.TARGET_ELEMENTS XML.fromstring
                   Sample.net_feed_then_archive _ _ _ _ _ _ H)).
Defined.

(** The archive without member, fetched after the sample feed. *)
Lemma get_data_archive_without_member_witness :
  let w1 := after Sample.w0 1 [EvGet Sample.URL] in
  Sample.net_feed_then_no_member (requests w1) Sample.target_a
  = Some (Sample.archive_response [])
  /\ get_data Sample.TARGET_ELEMENTS XML.fromstring Sample.net_feed_then_no_member
       Sample.target_a false w1
     = (Raise UnboundLocalError, after w1 1 [EvGet Sample.target_a; EvLog INFO])
  /\ put_first_firds_file_in_s3 Sample.URL Sample.TARGET_ELEMENTS XML.fromstring
       Sample.net_feed_then_no_member Sample.s3_up Sample.client_up "bucket" Sample.w0
     = (Raise UnboundLocalError, after w1 1 [EvGet Sample.target_a; EvLog INFO]).
Proof.
  intros w1.
  assert (H1 : Sample.net_feed_then_no_member (requests w1) Sample.target_a
               = Some (Sample.archive_response [])) by reflexivity.
  destruct (get_data_archive_without_member Sample.URL Sample.TARGET_ELEMENTS
              XML.fromstring Sample.net_feed_then_no_member Sample.s3_up Sample.client_up
              Sample.target_a false w1 _ H1 eq_refl) as [Hget Hrun].
  split_and!; [exact H1|exact Hget|].
  apply Hrun; [vm_compute; reflexivity|discriminate|reflexivity].
Defined.

(** The archive of two members without record, fetched after the sample
    feed. *)
Lemma get_data_archive_without_record_witness :
  let w1 := after Sample.w0 1 [EvGet Sample.URL] in
  let first := Sample.member "DLTINS_20230101_01of02.xml" (Sample.document []) in
  let last_ := Sample.member "DLTINS_20230101_02of02.xml" (Sample.document []) in
  Sample.net_feed_then_no_record (requests w1) Sample.target_a
  = Some (Sample.archive_response ([first] ++ [last_]))
  /\ re.findall_records (Sample.document []) = []
  /\ put_first_firds_file_in_s3 Sample.URL Sample.TARGET_ELEMENTS XML.fromstring
       Sample.net_feed_then_no_record Sample.s3_up Sample.client_up "bucket" Sample.w0
     = (Ok tt, after w1 1 [EvGet Sample.target_a; EvLog INFO; EvLog WARNING]).
Proof.
  intros w1 first last_.
  assert (H1 : Sample.net_feed_then_no_record (requests w1) Sample.target_a
               = Some (Sample.archive_response ([first] ++ [last_])))
    by reflexivity.
  assert (H2 : re.findall_records (Sample.document []) = [])
    by (vm_compute; reflexivity).
  assert (H3 : Forall (fun g => exists xml,
                         zipfile.payload g = Some (zipfile.Utf8 xml)
                         /\ re.findall_records xml = []) ([first] ++ [last_])).
  { repeat constructor; by exists (Sample.document []). }
  destruct (get_data_archive_without_record Sample.URL Sample.TARGET_ELEMENTS
              XML.fromstring Sample.net_feed_then_no_record Sample.s3_up Sample.client_up
              Sample.target_a false w1 _ [first] last_ H1 eq_refl H3) as [_ Hrun].
  split_and!; [exact H1|exact H2|].
  apply Hrun; [vm_compute; reflexivity|discriminate|reflexivity].
Defined.

(** The sample feed and the sample archive of two members, answered at
    once: the row of the second member comes first. With a client that is
    built the object is put; with one that is not, the run raises after the
    serialization. *)
Lemma run_reaches_sink_witness :
  let output := rows_as_extracted Sample.TARGET_ELEMENTS XML.fromstring
                  Sample.archive_two_members in
  let events := [EvGet Sample.URL; EvGet Sample.target_a; EvLog INFO;
                 EvWriteCsv (length output)] in
  select_latest XML.fromstring Sample.feed_three = Ok (Some Sample.target_a)
  /\ extract Sample.TARGET_ELEMENTS XML.fromstring Sample.archive_two_members
     = Ok (output, "DLTINS_20230101_02of02.xml")
  /\ render Sample.TARGET_ELEMENTS
       <$> rows_in_order Sample.TARGET_ELEMENTS XML.fromstring
             (rev Sample.archive_two_members)
     = [["FR000B2"; "Beta SA"; "9695002"]; ["DE000A1"; "Alpha, AG"; "5299001"]]
  /\ (exists body,
        csv.reader body
        = Some (fieldnames Sample.TARGET_ELEMENTS
                :: (render Sample.TARGET_ELEMENTS
                      <$> rows_in_order Sample.TARGET_ELEMENTS XML.fromstring
                            (rev Sample.archive_two_members)))
        /\ put_first_firds_file_in_s3 Sample.URL Sample.TARGET_ELEMENTS
             XML.fromstring Sample.net_feed_then_archive Sample.s3_up
             Sample.client_up "bucket" Sample.w0
           = (Ok tt,
              after Sample.w0 2
                (events ++ upload_events Sample.s3_up "bucket"
                             "DLTINS_20230101_02of02.xml" body)))
  /\ put_first_firds_file_in_s3 Sample.URL Sample.TARGET_ELEMENTS XML.fromstring
       Sample.net_feed_then_archive Sample.s3_up Sample.client_down "bucket"
       Sample.w0
     = (Raise Exception_, after Sample.w0 2 events).
Proof.
  intros output events.
  assert (H1 : select_latest XML.fromstring
                 (text (Sample.feed_response Sample.feed_three))
               = Ok (Some Sample.target_a)) by (vm_compute; reflexivity).
  assert (H2 : extract Sample.TARGET_ELEMENTS XML.fromstring Sample.archive_two_members
               = Ok (output, "DLTINS_20230101_02of02.xml"))
    by (vm_compute; reflexivity).
  assert (H3 : Sample.target_a <> EmptyString) by discriminate.
  assert (H4 : output <> []) by (vm_compute; discriminate).
  split_and!; [exact H1|exact H2|vm_compute; reflexivity| |].
  - destruct (run_reaches_sink Sample.URL Sample.TARGET_ELEMENTS XML.fromstring
                Sample.net_feed_then_archive Sample.s3_up Sample.client_up
                "bucket" Sample.w0
                (Sample.feed_response Sample.feed_three)
                (Sample.archive_response Sample.archive_two_members)
                Sample.target_a Sample.archive_two_members output _
                eq_refl H1 H3 eq_refl eq_refl H2 H4)
      as (body & Hread & _ & Hput & _).
    exists body. exact (conj Hread (Hput eq_refl)).
  - destruct (run_reaches_sink Sample.URL Sample.TARGET_ELEMENTS XML.fromstring
                Sample.net_feed_then_archive Sample.s3_up Sample.client_down
                "bucket" Sample.w0
                (Sample.feed_response Sample.feed_three)
                (Sample.archive_response Sample.archive_two_members)
                Sample.target_a Sample.archive_two_members output _
                eq_refl H1 H3 eq_refl eq_refl H2 H4)
      as (_ & _ & _ & _ & Hraise).
    exact (Hraise Exception_ eq_refl).
Defined.

